(** * luscroll: middle-button scrolling for evdev mice

    A shallow embedding of [luscroll.c].  The program grabs every mouse under
    /dev/input, mirrors it through a uinput device and, while the middle
    button is held, turns vertical motion into high-resolution wheel events.

    Layout of the development:
    - constants of the kernel headers and the program's own enum;
    - the per-event gesture logic of the read loop in [main];
    - the intrusive registry list [g.mice], kept in an explicit heap of
      [LUMouse] records addressed by integers (0 is the null pointer);
    - [unregister_mouse], [check_register_mouse], [unregister_dead_mice] and
      the two phases of [main] that touch the registry;
    - the theorems. *)

From Stdlib Require Import ZArith Lia String List Bool.
From stdpp Require Import base gmap list strings.

Local Open Scope Z_scope.

(** ** Constants *)

(** From linux/input-event-codes.h (kernel uapi header, not part of the
    repository): event types and codes the program names. *)
Definition EV_KEY : Z := 1.
Definition EV_REL : Z := 2.
Definition BTN_MIDDLE : Z := 274.      (* 0x112 *)
Definition REL_Y : Z := 1.
Definition REL_WHEEL_HI_RES : Z := 11. (* 0x0b *)

(** From errno.h. *)
Definition EAGAIN : Z := 11.

(** luscroll.c:20-24, the anonymous enum of state bits. *)
Definition MOUSE_STATE_NONE : Z := 0.
Definition MOUSE_STATE_DEAD : Z := Z.shiftl 1 0.
Definition MOUSE_STATE_SCROLLING : Z := Z.shiftl 1 2.

(** ** Machine integers

    [evt.value] is a signed 32-bit integer.  [s32] normalises a mathematical
    integer into the two's complement range, which is what the arithmetic of
    the target does on overflow. *)
Definition s32 (z : Z) : Z := (z + 2 ^ 31) mod 2 ^ 32 - 2 ^ 31.

Definition in_s32 (z : Z) : Prop := - 2 ^ 31 <= z < 2 ^ 31.

(** ** Events and effects *)

(** [struct input_event]; the timestamp is never read by the program. *)
Record input_event := InputEvent {
  ev_type : Z;
  ev_code : Z;
  ev_value : Z
}.

(** The diagnostics printed through the [msg] macro. *)
Inductive message :=
| MsgFailedGrab (path : string) (err : Z)
| MsgFailedUinput (path : string) (err : Z)
| MsgFailedOpen (path : string) (err : Z)
| MsgRegistered (name : string) (path : string)
| MsgReadFailed (status : Z).

(** The calls into libc, libevdev and uinput that change the outside world,
    in the order the program makes them.  [EUinputDestroy] stands for
    [libevdev_uinput_destroy]; the program has no call to it, the constructor
    is there so that properties about sink destruction can be written. *)
Inductive effect :=
| EOpen (path : string) (fd : Z)
| ENewFromFd (fd : Z) (status : Z)
| EUinputCreate (dev : Z) (status : Z)
| EGrab (dev : Z) (status : Z)
| EUngrab (dev : Z)
| EFreeDev (dev : Z)
| EClose (fd : Z)
| EFree (mouse : Z)
| EUinputDestroy (sink : Z)
| EWrite (sink : Z) (type code value : Z)
| EMsg (m : message).

(** ** Gesture logic (luscroll.c:194-209) *)

Definition is_middle_button (evt : input_event) : bool :=
  (ev_type evt =? EV_KEY) && (ev_code evt =? BTN_MIDDLE).

(** "Enter/exit scrolling state". *)
Definition update_state (st : Z) (evt : input_event) : Z :=
  if is_middle_button evt then
    if ev_value evt =? 0
    then Z.land st (Z.lnot MOUSE_STATE_SCROLLING)
    else Z.lor st MOUSE_STATE_SCROLLING
  else st.

Definition scrolling (st : Z) : bool :=
  negb (Z.land st MOUSE_STATE_SCROLLING =? 0).

(** [-evt.value * 2] in 32-bit arithmetic: negation first, then the
    product. *)
Definition wheel_value (v : Z) : Z := s32 (s32 (- v) * 2).

(** What is written to the sink once the state has been updated. *)
Definition forward (sink st : Z) (evt : input_event) : list effect :=
  if scrolling st then
    if (ev_type evt =? EV_REL) && (ev_code evt =? REL_Y)
    then [EWrite sink EV_REL REL_WHEEL_HI_RES (wheel_value (ev_value evt))]
    else []
  else [EWrite sink (ev_type evt) (ev_code evt) (ev_value evt)].

(** One pass through the body of the read loop after a successful read:
    the new state word and the writes to the sink. *)
Definition handle_event (sink st : Z) (evt : input_event) : Z * list effect :=
  let st' := update_state st evt in
  (st', forward sink st' evt).

(** A burst of successfully read events, processed in order. *)
Fixpoint handle_events (sink st : Z) (evts : list input_event)
  : Z * list effect :=
  match evts with
  | [] => (st, [])
  | evt :: rest =>
      let '(st1, out1) := handle_event sink st evt in
      let '(st2, out2) := handle_events sink st1 rest in
      (st2, out1 ++ out2)
  end.

(** Vocabulary of the claims. *)
Definition Idle (st : Z) : Prop := scrolling st = false.
Definition Scrolling (st : Z) : Prop := scrolling st = true.

Definition is_release (evt : input_event) : bool :=
  is_middle_button evt && (ev_value evt =? 0).

Definition is_press (evt : input_event) : bool :=
  is_middle_button evt && negb (ev_value evt =? 0).

Definition is_release_write (e : effect) : bool :=
  match e with
  | EWrite _ t c v => (t =? EV_KEY) && (c =? BTN_MIDDLE) && (v =? 0)
  | _ => false
  end.

Definition count_if {A} (p : A -> bool) (l : list A) : nat :=
  length (List.filter p l).

(** Releases received while the state word, as it was when the event
    arrived, had the scrolling bit clear. *)
Fixpoint releases_received_idle (st : Z) (evts : list input_event) : nat :=
  match evts with
  | [] => 0%nat
  | evt :: rest =>
      ((if is_release evt && negb (scrolling st) then 1 else 0)
       + releases_received_idle (update_state st evt) rest)%nat
  end.

Definition ev_press : input_event := InputEvent EV_KEY BTN_MIDDLE 1.
Definition ev_release : input_event := InputEvent EV_KEY BTN_MIDDLE 0.
Definition ev_rel_y (v : Z) : input_event := InputEvent EV_REL REL_Y v.

(** ** Outcomes of running a piece of the program *)

(** [Fault]: a pointer that is not a live [LUMouse] was dereferenced.
    [Timeout]: the step budget of a loop ran out, or the script of the
    outside world ended while the program was still reading. *)
Inductive result (A : Type) : Type :=
| Done (a : A)
| Fault
| Timeout.
Arguments Done {A} a.
Arguments Fault {A}.
Arguments Timeout {A}.

Definition bind {A B} (k : A -> result B) (c : result A) : result B :=
  match c with
  | Done a => k a
  | Fault => Fault
  | Timeout => Timeout
  end.

(** Sequencing is written [x ← c; k], as for the other monads of stdpp. *)
#[global] Instance result_bind : MBind result := @bind.
#[global] Instance result_ret : MRet result := @Done.

(** ** The registry (luscroll.c:26-40) *)

(** [struct LUMouse].  Pointers are integers, 0 is NULL; [dev] and
    [dev_uinput] are opaque handles owned by libevdev. *)
Record LUMouse := MkMouse {
  fd : Z;
  dev : Z;
  dev_uinput : Z;
  state : Z;
  next : Z
}.

Definition set_state (r : LUMouse) (s : Z) : LUMouse :=
  MkMouse (fd r) (dev r) (dev_uinput r) s (next r).

Definition set_next (r : LUMouse) (n : Z) : LUMouse :=
  MkMouse (fd r) (dev r) (dev_uinput r) (state r) n.

(** The part of the global [g] the registry code touches, the heap that
    holds the list nodes, and the effects performed so far. *)
Record World := MkWorld {
  heap : gmap Z LUMouse;
  mice : Z;
  trace : list effect
}.

Definition dead (st : Z) : bool :=
  negb (Z.land st MOUSE_STATE_DEAD =? 0).

(** What [unregister_mouse] does to the outside world for one node
    (luscroll.c:62-65).  The calls are recorded with the arguments the
    program passes, a null descriptor or a closed file included; what the
    libraries make of such arguments is outside the model. *)
Definition release (a : Z) (r : LUMouse) : list effect :=
  [EUngrab (dev r); EFreeDev (dev r); EClose (fd r); EFree a].

(** The [for] loop of luscroll.c:55-60, started at [m]. *)
Fixpoint unlink_after (fuel : nat) (h : gmap Z LUMouse) (m mouse : Z)
  : result (gmap Z LUMouse) :=
  match fuel with
  | O => Timeout
  | S fuel' =>
      if m =? 0 then Done h
      else match h !! m with
           | None => Fault
           | Some rm =>
               if next rm =? mouse then
                 match h !! next rm with
                 | None => Fault
                 | Some rn => Done (<[m := set_next rm (next rn)]> h)
                 end
               else unlink_after fuel' h (next rm) mouse
           end
  end.

(** luscroll.c:52-61: take [mouse] out of the chain that starts at
    [g.mice]. *)
Definition unlink (fuel : nat) (w : World) (mouse : Z) : result World :=
  if mice w =? mouse then
    match heap w !! mouse with
    | None => Fault
    | Some r => Done (MkWorld (heap w) (next r) (trace w))
    end
  else
    h' ← unlink_after fuel (heap w) (mice w) mouse;
    Done (MkWorld h' (mice w) (trace w)).

(** luscroll.c:48-66. *)
Definition unregister_mouse (fuel : nat) (w : World) (mouse : Z)
  : result World :=
  if mouse =? 0 then Done w
  else
    w1 ← unlink fuel w mouse;
    match heap w1 !! mouse with
    | None => Fault
    | Some r =>
        Done (MkWorld (delete mouse (heap w1)) (mice w1)
                      (trace w1 ++ release mouse r))
    end.

(** ** Registration (luscroll.c:68-111) *)

Definition DEV_INPUT : string := "/dev/input".

(** luscroll.c:44-46: [strncmp] over the length of [substr]. *)
Definition start_with (str substr : string) : bool :=
  String.prefix substr str.

(** What the outside world answers during one registration attempt. *)
Record probe := MkProbe {
  p_calloc : Z;            (* address returned by calloc, 0 on failure *)
  p_open : Z;              (* result of open *)
  p_new_status : Z;        (* result of libevdev_new_from_fd *)
  p_dev : Z;               (* the descriptor it stores on success *)
  p_has_rel : bool;        (* libevdev_has_event_type(dev, EV_REL) *)
  p_has_btn_middle : bool; (* libevdev_has_event_code(dev, EV_KEY, BTN_MIDDLE) *)
  p_uinput_status : Z;     (* result of libevdev_uinput_create_from_device *)
  p_uinput : Z;            (* the sink it stores on success *)
  p_grab_status : Z;       (* result of libevdev_grab(dev, LIBEVDEV_GRAB) *)
  p_name : string          (* libevdev_get_name *)
}.

Definition is_mouse (pr : probe) : bool :=
  p_has_rel pr && p_has_btn_middle pr.

(** luscroll.c:75-101: the attempt itself.  Returns [is_ok], the contents
    of the freshly allocated node and the effects performed. *)
Definition acquire (path : string) (pr : probe)
  : bool * LUMouse * list effect :=
  let r0 := MkMouse (p_open pr) 0 0 0 0 in
  let t0 := [EOpen path (p_open pr);
             ENewFromFd (p_open pr) (p_new_status pr)] in
  if 0 <=? p_new_status pr then
    let r1 := MkMouse (p_open pr) (p_dev pr) 0 0 0 in
    if is_mouse pr then
      let t1 := t0 ++ [EUinputCreate (p_dev pr) (p_uinput_status pr)] in
      if 0 <=? p_uinput_status pr then
        let r2 := MkMouse (p_open pr) (p_dev pr) (p_uinput pr) 0 0 in
        let t2 := t1 ++ [EGrab (p_dev pr) (p_grab_status pr)] in
        if 0 <=? p_grab_status pr then (true, r2, t2)
        else (false, r2,
              t2 ++ [EMsg (MsgFailedGrab path (- p_grab_status pr))])
      else (false, r1,
            t1 ++ [EMsg (MsgFailedUinput path (- p_uinput_status pr))])
    else (false, r1, t0)
  else (false, r0, t0 ++ [EMsg (MsgFailedOpen path (- p_new_status pr))]).

Definition check_register_mouse (fuel : nat) (path : option string)
    (pr : probe) (w : World) : result World :=
  match path with
  | None => Done w
  | Some path =>
      if negb (start_with path (DEV_INPUT ++ "/event")) then Done w
      else
        let mouse := p_calloc pr in
        if mouse =? 0 then unregister_mouse fuel w mouse
        else
          let '(is_ok, r, t) := acquire path pr in
          let w1 := MkWorld (<[mouse := r]> (heap w)) (mice w)
                            (trace w ++ t) in
          if negb is_ok then unregister_mouse fuel w1 mouse
          else
            Done (MkWorld (<[mouse := set_next r (mice w)]> (heap w1))
                          mouse
                          (trace w1 ++
                           [EMsg (MsgRegistered (p_name pr) path)]))
  end.

(** ** The sweep (luscroll.c:113-121) *)

Fixpoint sweep (inner fuel : nat) (w : World) (mouse : Z) : result World :=
  match fuel with
  | O => Timeout
  | S fuel' =>
      if mouse =? 0 then Done w
      else match heap w !! mouse with
           | None => Fault
           | Some r =>
               let next_mouse := next r in
               w' ← (if dead (state r)
                      then unregister_mouse inner w mouse
                      else Done w);
               sweep inner fuel' w' next_mouse
           end
  end.

Definition unregister_dead_mice (fuel : nat) (w : World) : result World :=
  sweep fuel fuel w (mice w).

(** ** The main loop (luscroll.c:167-218) *)

(** One hot-plug notification: its action, its device node, and what the
    registration attempt for that node would meet. *)
Record udev_device := MkUdev {
  ud_action : string;
  ud_devnode : option string;
  ud_probe : probe
}.

(** luscroll.c:169-175, over the notifications pending in this round. *)
Fixpoint drain_hotplug (fuel : nat) (devs : list udev_device) (w : World)
  : result World :=
  match devs with
  | [] => Done w
  | d :: rest =>
      w' ← (if String.eqb (ud_action d) "add"
             then check_register_mouse fuel (ud_devnode d) (ud_probe d) w
             else Done w);
      drain_hotplug fuel rest w'
  end.

(** luscroll.c:180-210: the [do ... while (true)] for one mouse.  The script
    lists what successive calls to [libevdev_next_event] return; the loop
    leaves at the first negative status, which it hands back together with
    the state word and the writes made. *)
Fixpoint read_burst (script : list (Z * input_event)) (sink st : Z)
  : result (Z * Z * list effect) :=
  match script with
  | [] => Timeout
  | (status, evt) :: rest =>
      if status <? 0 then Done (status, st, [])
      else
        let '(st1, out1) := handle_event sink st evt in
        '(status', st2, out2) ← read_burst rest sink st1;
        Done (status', st2, out1 ++ out2)
  end.

(** luscroll.c:211-214. *)
Definition after_burst (status st : Z) : Z * list effect :=
  if status =? - EAGAIN then (st, [])
  else (Z.lor st MOUSE_STATE_DEAD, [EMsg (MsgReadFailed status)]).

(** luscroll.c:177-215; [reads] gives the script of each descriptor.  The
    state word is carried through the burst and stored into the node once
    the burst is over; nothing reads the node in between. *)
Fixpoint poll_mice (fuel : nat) (reads : Z -> list (Z * input_event))
    (w : World) (mouse : Z) : result World :=
  match fuel with
  | O => Timeout
  | S fuel' =>
      if mouse =? 0 then Done w
      else match heap w !! mouse with
           | None => Fault
           | Some r =>
               '(status, st, out) ←
                 read_burst (reads (dev r)) (dev_uinput r) (state r);
               let '(st', log) := after_burst status st in
               poll_mice fuel' reads
                 (MkWorld (<[mouse := set_state r st']> (heap w)) (mice w)
                          (trace w ++ out ++ log))
                 (next r)
           end
  end.

(** Lines 177-217: read every mouse, then sweep. *)
Definition poll_and_sweep (fuel : nat) (reads : Z -> list (Z * input_event))
    (w : World) : result World :=
  w1 ← poll_mice fuel reads w (mice w);
  unregister_dead_mice fuel w1.

(** One round of [while (!g.stopped)]. *)
Definition loop_iteration (fuel : nat) (devs : list udev_device)
    (reads : Z -> list (Z * input_event)) (w : World) : result World :=
  w1 ← drain_hotplug fuel devs w;
  poll_and_sweep fuel reads w1.

(** luscroll.c:220-222. *)
Fixpoint mark_all_dead (fuel : nat) (h : gmap Z LUMouse) (mouse : Z)
  : result (gmap Z LUMouse) :=
  match fuel with
  | O => Timeout
  | S fuel' =>
      if mouse =? 0 then Done h
      else match h !! mouse with
           | None => Fault
           | Some r =>
               mark_all_dead fuel'
                 (<[mouse := set_state r (Z.lor (state r) MOUSE_STATE_DEAD)]> h)
                 (next r)
           end
  end.

(** luscroll.c:220-223: what [main] does once the loop has been left. *)
Definition shutdown (fuel : nat) (w : World) : result World :=
  h ← mark_all_dead fuel (heap w) (mice w);
  unregister_dead_mice fuel (MkWorld h (mice w) (trace w)).

(** ** The registry as a list

    The chain of nodes reachable from a pointer, seen as the list of its
    nodes without their [next] fields. *)
Record view := MkView {
  v_addr : Z;
  v_fd : Z;
  v_dev : Z;
  v_sink : Z;
  v_state : Z
}.

Definition view_of (a : Z) (r : LUMouse) : view :=
  MkView a (fd r) (dev r) (dev_uinput r) (state r).

Fixpoint is_list (h : gmap Z LUMouse) (p : Z) (l : list view) : Prop :=
  match l with
  | [] => p = 0
  | v :: l' =>
      p <> 0 /\
      exists r, h !! p = Some r /\ view_of p r = v /\ is_list h (next r) l'
  end.

Definition registry (w : World) (l : list view) : Prop :=
  is_list (heap w) (mice w) l.

(** The same chain, computed; the budget bounds the number of nodes. *)
Fixpoint chain (fuel : nat) (h : gmap Z LUMouse) (p : Z)
  : result (list view) :=
  match fuel with
  | O => Timeout
  | S fuel' =>
      if p =? 0 then Done []
      else match h !! p with
           | None => Fault
           | Some r => l ← chain fuel' h (next r); Done (view_of p r :: l)
           end
  end.

Definition addrs (l : list view) : list Z := v_addr <$> l.

Definition head_addr (l : list view) : Z :=
  match l with
  | [] => 0
  | v :: _ => v_addr v
  end.

Definition release_view (v : view) : list effect :=
  [EUngrab (v_dev v); EFreeDev (v_dev v); EClose (v_fd v); EFree (v_addr v)].

Definition dead_view (v : view) : bool := dead (v_state v).
Definition alive_view (v : view) : bool := negb (dead (v_state v)).

Definition with_state (v : view) (s : Z) : view :=
  MkView (v_addr v) (v_fd v) (v_dev v) (v_sink v) s.

Definition mark_dead (v : view) : view :=
  with_state v (Z.lor (v_state v) MOUSE_STATE_DEAD).

(** What one turn of the polling loop makes of a mouse: the status that
    ended its burst, the mouse with its new state word, the effects. *)
Definition polled (reads : Z -> list (Z * input_event)) (v : view)
  : result (Z * view * list effect) :=
  '(status, st, out) ← read_burst (reads (v_dev v)) (v_sink v) (v_state v);
  let '(st', log) := after_burst status st in
  Done (status, with_state v st', out ++ log).


Definition is_sink_destroy (e : effect) : bool :=
  match e with
  | EUinputDestroy _ => true
  | _ => false
  end.

(** The effects of sweeping [l]: every dead mouse is released, in list
    order. *)
Definition released (l : list view) : list effect :=
  concat (List.map release_view (List.filter dead_view l)).

(** Components of what [polled] returns. *)
Definition polled_status (o : Z * view * list effect) : Z := fst (fst o).
Definition polled_view (o : Z * view * list effect) : view := snd (fst o).
Definition polled_effects (o : Z * view * list effect) : list effect := snd o.


(** ** Vocabulary of the further properties *)

(** The write that forwards an event as it came (luscroll.c:208). *)
Definition write_of (sink : Z) (evt : input_event) : effect :=
  EWrite sink (ev_type evt) (ev_code evt) (ev_value evt).

(** The write that stands for a vertical motion (luscroll.c:205). *)
Definition wheel_of (sink : Z) (evt : input_event) : effect :=
  EWrite sink EV_REL REL_WHEEL_HI_RES (wheel_value (ev_value evt)).

Definition is_rel_y (evt : input_event) : bool :=
  (ev_type evt =? EV_REL) && (ev_code evt =? REL_Y).

(** The value of the last middle-button event of a sequence, if any. *)
Fixpoint last_button (acc : option Z) (evts : list input_event) : option Z :=
  match evts with
  | [] => acc
  | evt :: rest =>
      last_button (if is_middle_button evt then Some (ev_value evt) else acc)
                  rest
  end.

Definition is_write_to (sink : Z) (e : effect) : bool :=
  match e with
  | EWrite s _ _ _ => s =? sink
  | _ => false
  end.

(** Every step of a registration attempt goes through: the path is an
    event node, the node is allocated, the descriptor is built, the device
    classifies as a mouse, the sink is created and the grab is taken. *)
Definition all_steps_ok (path : option string) (pr : probe) : bool :=
  match path with
  | None => false
  | Some p =>
      start_with p (DEV_INPUT ++ "/event")
      && negb (p_calloc pr =? 0)
      && (0 <=? p_new_status pr)
      && is_mouse pr
      && (0 <=? p_uinput_status pr)
      && (0 <=? p_grab_status pr)
  end.

(** The mouse a successful attempt puts into the registry. *)
Definition new_view (pr : probe) : view :=
  MkView (p_calloc pr) (p_open pr) (p_dev pr) (p_uinput pr) 0.

(** ** The initial scan (luscroll.c:144-149) *)

(** [snprintf] into [char full_path[512]]: at most 511 characters of
    "/dev/input/<d_name>" are kept. *)
Definition full_path (d_name : string) : string :=
  String.substring 0 511 (DEV_INPUT ++ "/" ++ d_name).

(** The [readdir] loop, over the entries of the directory and what a
    registration attempt on each would meet. *)
Fixpoint scan_directory (fuel : nat) (entries : list (string * probe))
    (w : World) : result World :=
  match entries with
  | [] => Done w
  | (d_name, pr) :: rest =>
      w' ← check_register_mouse fuel (Some (full_path d_name)) pr w;
      scan_directory fuel rest w'
  end.

(** A descriptor with nothing to read: the first call to
    [libevdev_next_event] already answers [-EAGAIN]. *)
Definition quiet (reads : Z -> list (Z * input_event)) (v : view) : Prop :=
  exists e rest, reads (v_dev v) = (- EAGAIN, e) :: rest.

Definition is_add (d : udev_device) : bool := String.eqb (ud_action d) "add".

(** What one mouse may contribute to the trace of a polling round: writes
    to its own sink, and the report of its read failure. *)
Definition own_effect (v : view) (status : Z) (e : effect) : bool :=
  match e with
  | EWrite s _ _ _ => s =? v_sink v
  | EMsg (MsgReadFailed s) => s =? status
  | _ => false
  end.

(** ** Runs of registration attempts

    The initial scan and the hot-plug loop both call
    [check_register_mouse] once per candidate.  [register_all] is their
    common shape, used to reason about both at once. *)
Fixpoint register_all (fuel : nat) (atts : list (option string * probe))
    (w : World) : result World :=
  match atts with
  | [] => Done w
  | (path, pr) :: rest =>
      w' ← check_register_mouse fuel path pr w;
      register_all fuel rest w'
  end.

Definition hotplug_attempts (devs : list udev_device)
  : list (option string * probe) :=
  List.map (fun d => (ud_devnode d, ud_probe d)) (List.filter is_add devs).

Definition scan_attempts (entries : list (string * probe))
  : list (option string * probe) :=
  List.map (fun e => (Some (full_path (fst e)), snd e)) entries.

(** The allocator hands out null or an address that is not live at the
    time of the call; [live] follows the nodes that stay allocated. *)
Fixpoint allocs_fresh (live : gset Z) (atts : list (option string * probe))
  : Prop :=
  match atts with
  | [] => True
  | (path, pr) :: rest =>
      (p_calloc pr = 0 \/ p_calloc pr ∉ live) /\
      allocs_fresh (if all_steps_ok path pr
                    then {[ p_calloc pr ]} ∪ live else live) rest
  end.

(** The mice a run of attempts adds, newest first. *)
Definition registered (atts : list (option string * probe)) : list view :=
  rev (List.map (fun a => new_view (snd a))
         (List.filter (fun a => all_steps_ok (fst a) (snd a)) atts)).

(** ** Grabs held

    Which descriptors are grabbed once a trace has been performed: a
    successful LIBEVDEV_GRAB takes the grab, LIBEVDEV_UNGRAB gives it
    back. *)
Definition held_step (acc : list Z) (e : effect) : list Z :=
  match e with
  | EGrab d s => if 0 <=? s then d :: acc else acc
  | EUngrab d => List.filter (fun x => negb (x =? d)) acc
  | _ => acc
  end.

Definition held_from (acc : list Z) (t : list effect) : list Z :=
  fold_left held_step t acc.

Definition held (t : list effect) : list Z := held_from [] t.

Definition grab_neutral (e : effect) : bool :=
  match e with
  | EGrab _ _ | EUngrab _ => false
  | _ => true
  end.

(** ** The whole of [main] (luscroll.c:128-224) *)

(** What the platform answers during start-up. *)
Record startup := MkStartup {
  s_uid : Z;                                    (* getuid *)
  s_input_dir : option (list (string * probe)); (* opendir, then readdir *)
  s_udev : bool;                                (* udev_new is not null *)
  s_monitor : bool;     (* udev_monitor_new_from_netlink is not null *)
  s_enable : Z                          (* udev_monitor_enable_receiving *)
}.

(** One pass through the body of [while (!g.stopped)]: the notifications
    pending and what each descriptor has to read. *)
Record round := MkRound {
  r_devs : list udev_device;
  r_reads : Z -> list (Z * input_event)
}.

(** The early returns of [main], each after one diagnostic. *)
Inductive startup_error :=
| NotRoot
| NoInputDir
| NoUdev
| NoUdevMonitor
| NoUdevStart.

Definition EXIT_FAILURE : Z := 1.

(** The loop, for the rounds that pass before the handler of SIGINT has
    set [g.stopped]: the flag is looked at between rounds only. *)
Fixpoint run_rounds (fuel : nat) (rounds : list round) (w : World)
  : result World :=
  match rounds with
  | [] => Done w
  | r :: rest =>
      w' ← loop_iteration fuel (r_devs r) (r_reads r) w;
      run_rounds fuel rest w'
  end.

(** [main]: the exit status, the diagnostic of an early return if any, and
    the world at exit.  Control that reaches the end of [main] returns 0. *)
Definition main (fuel : nat) (s : startup) (rounds : list round)
  : result (Z * option startup_error * World) :=
  let w0 := MkWorld ∅ 0 [] in
  if negb (s_uid s =? 0) then Done (EXIT_FAILURE, Some NotRoot, w0)
  else
    match s_input_dir s with
    | None => Done (EXIT_FAILURE, Some NoInputDir, w0)
    | Some entries =>
        w1 ← scan_directory fuel entries w0;
        if negb (s_udev s) then Done (EXIT_FAILURE, Some NoUdev, w1)
        else if negb (s_monitor s)
        then Done (EXIT_FAILURE, Some NoUdevMonitor, w1)
        else if s_enable s <? 0
        then Done (EXIT_FAILURE, Some NoUdevStart, w1)
        else
          w2 ← run_rounds fuel rounds w1;
          w3 ← shutdown fuel w2;
          Done (0, None, w3)
    end.

(** Every registration attempt of a run, in the order they are made. *)
Definition all_attempts (entries : list (string * probe))
    (rounds : list round) : list (option string * probe) :=
  scan_attempts entries
  ++ concat (List.map (fun r => hotplug_attempts (r_devs r)) rounds).

(** The allocator returns null or an address it has not returned
    before; [used] lists the addresses handed out so far. *)
Fixpoint allocs_distinct (used : list Z)
    (atts : list (option string * probe)) : Prop :=
  match atts with
  | [] => True
  | (_, pr) :: rest =>
      (p_calloc pr = 0 \/ p_calloc pr ∉ used) /\
      allocs_distinct (p_calloc pr :: used) rest
  end.

(** The device stops answering at some point: after finitely many events
    its read returns a negative status. *)
Definition script_ends (script : list (Z * input_event)) : Prop :=
  exists pre s e post,
    script = pre ++ (s, e) :: post /\
    Forall (fun x => 0 <= fst x) pre /\ s < 0.

(** What every step of a run keeps.  [run_inv used w l]: the registry of
    [w] is the well-formed list [l]; the live nodes are exactly the
    registered mice, all at addresses the allocator has handed out; every
    descriptor still grabbed belongs to a registered mouse. *)
Definition run_inv (used : list Z) (w : World) (l : list view) : Prop :=
  registry w l /\
  dom (heap w) = list_to_set (addrs l) /\
  (forall a, is_Some (heap w !! a) -> a ∈ used) /\
  forall d, d ∈ held (trace w) -> exists v, v ∈ l /\ v_dev v = d.

(** ** Sample worlds

    Small concrete states on which the statements below are exercised. *)

(** One registered mouse at address 16. *)
Definition w_one : World :=
  MkWorld {[ 16 := MkMouse 3 100 200 0 0 ]} 16 [].

(** Two registered mice, 16 then 48. *)
Definition w_two : World :=
  MkWorld {[ 16 := MkMouse 3 100 200 0 48; 48 := MkMouse 5 102 202 0 0 ]}
          16 [].

(** [w_one] with a second node at 32 that was never linked in. *)
Definition w_pending : World :=
  MkWorld {[ 16 := MkMouse 3 100 200 0 0; 32 := MkMouse 4 101 0 0 0 ]} 16 [].

Definition event4 : string := "/dev/input/event4".

(** A mouse on which every step succeeds. *)
Definition pr_ok : probe := MkProbe 32 4 0 101 true true 0 201 0 "m".
(** A mouse whose sink is created and whose grab fails with EBUSY. *)
Definition pr_busy : probe := MkProbe 32 4 0 101 true true 0 201 (-16) "m".
(** A keyboard: keys, no relative axes. *)
Definition pr_keyboard : probe := MkProbe 32 4 0 101 false true 0 201 0 "k".

(** Descriptor 100 has one press pending and then fails with ENODEV; every
    other descriptor has nothing to read. *)
Definition reads_gone (d : Z) : list (Z * input_event) :=
  if d =? 100 then [(0, ev_press); (-19, InputEvent 0 0 0)]
  else [(- EAGAIN, InputEvent 0 0 0)].

(** A start-up on which every check passes, over a directory with one
    mouse, and one round in which a second mouse is plugged in while the
    first loses its device. *)
Definition s_sample : startup :=
  MkStartup 0
    (Some [("event3", MkProbe 16 3 0 100 true true 0 200 0 "a");
           ("mice", MkProbe 0 0 0 0 false false 0 0 0 "")])
    true true 0.

Definition rounds_sample : list round :=
  [MkRound [MkUdev "add" (Some event4) pr_ok] reads_gone].

(** * Theorems *)

(** ** Bits of the state word *)

Lemma land_bit_cases (st k : Z) :
  0 <= k -> Z.land st (2 ^ k) = if Z.testbit st k then 2 ^ k else 0.
Proof.
  intros Hk. apply Z.bits_inj'. intros n Hn.
  rewrite Z.land_spec, Z.pow2_bits_eqb by lia.
  destruct (Z.eqb_spec k n) as [->|Hne].
  - destruct (Z.testbit st n) eqn:E; simpl.
    + now rewrite Z.pow2_bits_eqb, Z.eqb_refl by lia.
    + now rewrite Z.bits_0.
  - rewrite andb_false_r.
    destruct (Z.testbit st k).
    + rewrite Z.pow2_bits_eqb by lia. symmetry. now apply Z.eqb_neq.
    + now rewrite Z.bits_0.
Qed.

Lemma scrolling_testbit (st : Z) : scrolling st = Z.testbit st 2.
Proof.
  unfold scrolling, MOUSE_STATE_SCROLLING.
  change (Z.shiftl 1 2) with (2 ^ 2).
  rewrite land_bit_cases by lia. now destruct (Z.testbit st 2).
Qed.

Lemma dead_testbit (st : Z) : dead st = Z.testbit st 0.
Proof.
  unfold dead, MOUSE_STATE_DEAD.
  change (Z.shiftl 1 0) with (2 ^ 0).
  rewrite land_bit_cases by lia. now destruct (Z.testbit st 0).
Qed.

Lemma scrolling_set (st : Z) : scrolling (Z.lor st MOUSE_STATE_SCROLLING) = true.
Proof.
  rewrite scrolling_testbit, Z.lor_spec. apply orb_true_r.
Qed.

Lemma scrolling_clear (st : Z) :
  scrolling (Z.land st (Z.lnot MOUSE_STATE_SCROLLING)) = false.
Proof.
  rewrite scrolling_testbit, Z.land_spec. apply andb_false_r.
Qed.

Lemma lor_scrolling_id (st : Z) :
  scrolling st = true -> Z.lor st MOUSE_STATE_SCROLLING = st.
Proof.
  rewrite scrolling_testbit. intros H. apply Z.bits_inj'. intros n Hn.
  rewrite Z.lor_spec. change MOUSE_STATE_SCROLLING with (2 ^ 2).
  rewrite Z.pow2_bits_eqb by lia.
  destruct (Z.eqb_spec 2 n) as [<-|]; [now rewrite H | apply orb_false_r].
Qed.

Lemma clear_scrolling_id (st : Z) :
  scrolling st = false -> Z.land st (Z.lnot MOUSE_STATE_SCROLLING) = st.
Proof.
  rewrite scrolling_testbit. intros H. apply Z.bits_inj'. intros n Hn.
  rewrite Z.land_spec, Z.lnot_spec by lia.
  change MOUSE_STATE_SCROLLING with (2 ^ 2).
  rewrite Z.pow2_bits_eqb by lia.
  destruct (Z.eqb_spec 2 n) as [<-|]; [now rewrite H | apply andb_true_r].
Qed.

Lemma dead_update_state (st : Z) (evt : input_event) :
  dead (update_state st evt) = dead st.
Proof.
  rewrite !dead_testbit. unfold update_state.
  destruct (is_middle_button evt); [|reflexivity].
  destruct (ev_value evt =? 0).
  - rewrite Z.land_spec. apply andb_true_r.
  - rewrite Z.lor_spec. apply orb_false_r.
Qed.

Lemma dead_set (st : Z) : dead (Z.lor st MOUSE_STATE_DEAD) = true.
Proof. rewrite dead_testbit, Z.lor_spec. apply orb_true_r. Qed.

(** ** 32-bit arithmetic of the wheel value *)

Lemma s32_id (z : Z) : in_s32 z -> s32 z = z.
Proof.
  unfold in_s32, s32. intros H. rewrite Z.mod_small; lia.
Qed.

Lemma wheel_value_spec (v : Z) : wheel_value v = s32 (-2 * v).
Proof.
  unfold wheel_value, s32.
  rewrite (Z.mod_eq (- v + 2 ^ 31)) by lia.
  set (q := (- v + 2 ^ 31) / 2 ^ 32).
  replace ((- v + 2 ^ 31 - 2 ^ 32 * q - 2 ^ 31) * 2 + 2 ^ 31)
    with (-2 * v + 2 ^ 31 + (-2 * q) * 2 ^ 32) by lia.
  now rewrite Z_mod_plus_full.
Qed.

Lemma wheel_value_exact (v : Z) :
  - 2 ^ 30 < v <= 2 ^ 30 -> wheel_value v = -2 * v.
Proof.
  intros H. rewrite wheel_value_spec. apply s32_id. unfold in_s32. lia.
Qed.

(** ** The gesture recogniser *)

Lemma set_clear_scrolling_id (st : Z) :
  scrolling st = false ->
  Z.land (Z.lor st MOUSE_STATE_SCROLLING) (Z.lnot MOUSE_STATE_SCROLLING) = st.
Proof.
  rewrite scrolling_testbit. intros H. apply Z.bits_inj'. intros n Hn.
  rewrite Z.land_spec, Z.lnot_spec, Z.lor_spec by lia.
  change MOUSE_STATE_SCROLLING with (2 ^ 2).
  rewrite Z.pow2_bits_eqb by lia.
  destruct (Z.eqb_spec 2 n) as [<-|].
  - rewrite H. reflexivity.
  - now rewrite orb_false_r, andb_true_r.
Qed.

Lemma handle_event_press (sink st v : Z) :
  v <> 0 ->
  handle_event sink st (InputEvent EV_KEY BTN_MIDDLE v)
  = (Z.lor st MOUSE_STATE_SCROLLING, []).
Proof.
  intros Hv. unfold handle_event, update_state, forward. simpl.
  apply Z.eqb_neq in Hv. rewrite Hv, scrolling_set. reflexivity.
Qed.

Lemma handle_event_release (sink st : Z) :
  handle_event sink st ev_release
  = (Z.land st (Z.lnot MOUSE_STATE_SCROLLING),
     [EWrite sink EV_KEY BTN_MIDDLE 0]).
Proof.
  unfold handle_event, update_state, forward. simpl.
  rewrite scrolling_clear. reflexivity.
Qed.

Lemma handle_event_rel_y (sink st v : Z) :
  scrolling st = true ->
  handle_event sink st (ev_rel_y v)
  = (st, [EWrite sink EV_REL REL_WHEEL_HI_RES (wheel_value v)]).
Proof.
  intros Hs. unfold handle_event, update_state, forward. simpl.
  rewrite Hs. reflexivity.
Qed.

(** C1. While the scrolling bit is set, a REL_Y event of value [v] leaves
    the state word as it is and writes exactly one event to the sink, a
    REL_WHEEL_HI_RES event whose value is [-2 * v] in signed 32-bit
    arithmetic, which is the integer [-2 * v] whenever that fits; the REL_Y
    event itself is not among the writes.  From an idle state the sequence
    middle-button down, REL_Y 5, REL_Y -3, middle-button up writes wheel
    -10, wheel 6 and the button release, and ends in the state it started
    from. *)
Theorem scrolling_translates_motion (sink st v : Z) :
  Scrolling st ->
  handle_event sink st (ev_rel_y v)
  = (st, [EWrite sink EV_REL REL_WHEEL_HI_RES (s32 (-2 * v))])
  /\ (- 2 ^ 30 < v <= 2 ^ 30 -> s32 (-2 * v) = -2 * v)
  /\ ~ In (EWrite sink EV_REL REL_Y v)
          (snd (handle_event sink st (ev_rel_y v)))
  /\ (forall st0, Idle st0 ->
        handle_events sink st0
          [ev_press; ev_rel_y 5; ev_rel_y (-3); ev_release]
        = (st0, [EWrite sink EV_REL REL_WHEEL_HI_RES (-10);
                 EWrite sink EV_REL REL_WHEEL_HI_RES 6;
                 EWrite sink EV_KEY BTN_MIDDLE 0])).
Proof.
  intros Hs. rewrite handle_event_rel_y by exact Hs.
  rewrite wheel_value_spec. split; [reflexivity|]. split.
  - intros Hr. rewrite <- wheel_value_spec. now apply wheel_value_exact.
  - split.
    + simpl. intros [H|[]]. discriminate H.
    + intros st0 Hi. unfold handle_events.
      unfold ev_press. rewrite handle_event_press by discriminate.
      rewrite !handle_event_rel_y by apply scrolling_set.
      rewrite handle_event_release. cbn [app].
      rewrite set_clear_scrolling_id by exact Hi. reflexivity.
Qed.

Lemma scrolling_translates_motion_witness :
  handle_event 7 MOUSE_STATE_SCROLLING (ev_rel_y 5)
  = (MOUSE_STATE_SCROLLING, [EWrite 7 EV_REL REL_WHEEL_HI_RES (s32 (-2 * 5))]).
Proof.
  refine (proj1 (scrolling_translates_motion 7 MOUSE_STATE_SCROLLING 5 _)).
  reflexivity.
Defined.

(** C2. A middle-button event with a nonzero value sets the scrolling bit
    and writes nothing to the sink; a middle-button event with value zero
    clears the bit, whatever the state was, and is written to the sink as
    it came. *)
Theorem button_press_consumed_release_replayed (sink st : Z) :
  (forall v, v <> 0 ->
     let '(st', out) := handle_event sink st (InputEvent EV_KEY BTN_MIDDLE v) in
     Scrolling st' /\ out = [])
  /\ (let '(st', out) := handle_event sink st (InputEvent EV_KEY BTN_MIDDLE 0) in
      Idle st' /\ out = [EWrite sink EV_KEY BTN_MIDDLE 0]).
Proof.
  split.
  - intros v Hv. rewrite handle_event_press by exact Hv.
    split; [apply scrolling_set | reflexivity].
  - change (InputEvent EV_KEY BTN_MIDDLE 0) with ev_release.
    rewrite handle_event_release.
    split; [apply scrolling_clear | reflexivity].
Qed.

Lemma is_press_false_cases (evt : input_event) :
  is_press evt = false ->
  is_middle_button evt = false \/
  (is_middle_button evt = true /\ ev_value evt = 0).
Proof.
  unfold is_press. destruct (is_middle_button evt); [|now left].
  destruct (Z.eqb_spec (ev_value evt) 0); [now right | discriminate].
Qed.

(** C3. In the idle state every event that is not a middle-button press,
    a middle-button release included, is written to the sink with the
    type, code and value it came with, and the state stays idle. *)
Theorem idle_forwards_unchanged (sink st : Z) (evt : input_event) :
  Idle st -> is_press evt = false ->
  handle_event sink st evt
  = (st, [EWrite sink (ev_type evt) (ev_code evt) (ev_value evt)]).
Proof.
  intros Hi Hp. unfold handle_event, update_state, forward.
  destruct (is_press_false_cases evt Hp) as [Hm|[Hm Hv]]; rewrite Hm.
  - rewrite Hi. reflexivity.
  - rewrite Hv. simpl. rewrite scrolling_clear.
    rewrite clear_scrolling_id by exact Hi. reflexivity.
Qed.

Lemma idle_forwards_unchanged_witness :
  handle_event 7 MOUSE_STATE_NONE (InputEvent EV_REL REL_Y 4)
  = (MOUSE_STATE_NONE, [EWrite 7 EV_REL REL_Y 4])
  /\ handle_event 7 MOUSE_STATE_NONE ev_release
     = (MOUSE_STATE_NONE, [EWrite 7 EV_KEY BTN_MIDDLE 0]).
Proof.
  split.
  - apply (idle_forwards_unchanged 7 MOUSE_STATE_NONE
             (InputEvent EV_REL REL_Y 4)); reflexivity.
  - apply (idle_forwards_unchanged 7 MOUSE_STATE_NONE ev_release);
      reflexivity.
Defined.

(** C9. A further middle-button press while the scrolling bit is set
    changes nothing: the state word is the same and nothing is written. *)
Theorem repeated_press_idempotent (sink st v : Z) :
  Scrolling st -> v <> 0 ->
  handle_event sink st (InputEvent EV_KEY BTN_MIDDLE v) = (st, []).
Proof.
  intros Hs Hv. rewrite handle_event_press by exact Hv.
  rewrite lor_scrolling_id by exact Hs. reflexivity.
Qed.

Lemma repeated_press_idempotent_witness :
  handle_event 7 MOUSE_STATE_SCROLLING (InputEvent EV_KEY BTN_MIDDLE 1)
  = (MOUSE_STATE_SCROLLING, []).
Proof.
  apply (repeated_press_idempotent 7 MOUSE_STATE_SCROLLING 1).
  - reflexivity.
  - discriminate.
Defined.

(** *** Counting forwarded releases *)

Lemma count_if_app {A} (p : A -> bool) (l1 l2 : list A) :
  count_if p (l1 ++ l2) = (count_if p l1 + count_if p l2)%nat.
Proof.
  unfold count_if. now rewrite List.filter_app, length_app.
Qed.

Lemma forward_release_count (sink st : Z) (evt : input_event) :
  count_if is_release_write (forward sink (update_state st evt) evt)
  = if is_release evt then 1%nat else 0%nat.
Proof.
  unfold forward, update_state, is_release.
  destruct (is_middle_button evt) eqn:Hm.
  - unfold is_middle_button in Hm. apply andb_prop in Hm as [Ht Hc].
    destruct (ev_value evt =? 0) eqn:Hv.
    + rewrite scrolling_clear. unfold count_if. simpl.
      now rewrite Ht, Hc, Hv.
    + rewrite scrolling_set.
      apply Z.eqb_eq in Ht. rewrite Ht. reflexivity.
  - simpl. destruct (scrolling st).
    + destruct ((ev_type evt =? EV_REL) && (ev_code evt =? REL_Y));
        reflexivity.
    + unfold count_if. simpl. unfold is_middle_button in Hm.
      rewrite Hm. reflexivity.
Qed.

(** C4, as the code has it.  Over any sequence of events and from any
    state word, the number of middle-button releases written to the sink is
    the number of middle-button releases received: a release clears the
    scrolling bit before the forwarding decision is taken, so it is written
    whether it arrived in the idle or in the scrolling state. *)
Theorem forwarded_releases_count (sink st : Z) (evts : list input_event) :
  count_if is_release_write (snd (handle_events sink st evts))
  = count_if is_release evts.
Proof.
  revert st. induction evts as [|evt rest IH]; intros st.
  - reflexivity.
  - simpl. unfold handle_event.
    specialize (IH (update_state st evt)).
    destruct (handle_events sink (update_state st evt) rest) as [st2 out2].
    simpl in *. rewrite count_if_app, forward_release_count, IH.
    unfold count_if. simpl. destruct (is_release evt); reflexivity.
Qed.

(** C4, as stated, fails: after a press the release arrives in the
    scrolling state, and it is forwarded all the same. *)
Lemma forwarded_releases_not_idle_only :
  Idle MOUSE_STATE_NONE /\
  count_if is_release_write
    (snd (handle_events 7 MOUSE_STATE_NONE [ev_press; ev_release]))
  <> releases_received_idle MOUSE_STATE_NONE [ev_press; ev_release].
Proof. split; [reflexivity | vm_compute; discriminate]. Qed.

(** ** The chain of nodes behind a pointer *)

Section Chains.
Implicit Types (h : gmap Z LUMouse) (l : list view) (p a : Z).

Lemma is_list_head h p l : is_list h p l -> p = head_addr l.
Proof.
  destruct l as [|v l]; simpl; [easy|].
  intros (_ & r & _ & <- & _). reflexivity.
Qed.

Lemma is_list_cons_inv h p v l :
  is_list h p (v :: l) ->
  p = v_addr v /\ p <> 0 /\
  exists r, h !! p = Some r /\ view_of p r = v /\ is_list h (next r) l.
Proof.
  intros H. pose proof (is_list_head _ _ _ H) as Hp.
  destruct H as (Hnz & r & Hr & Hv & Hl). eauto 10.
Qed.

Lemma is_list_functional h p l1 l2 :
  is_list h p l1 -> is_list h p l2 -> l1 = l2.
Proof.
  revert p l2. induction l1 as [|v l1 IH]; intros p [|v2 l2] H1 H2; simpl in *.
  - reflexivity.
  - destruct H2 as (Hnz & _). congruence.
  - destruct H1 as (Hnz & _). congruence.
  - destruct H1 as (_ & r1 & Hr1 & Hv1 & Hl1).
    destruct H2 as (_ & r2 & Hr2 & Hv2 & Hl2).
    assert (r1 = r2) as -> by congruence.
    f_equal; [congruence | eauto].
Qed.

Lemma is_list_suffix h p l1 l2 :
  is_list h p (l1 ++ l2) -> is_list h (head_addr l2) l2.
Proof.
  revert p. induction l1 as [|v l1 IH]; intros p H; simpl in *.
  - now rewrite <- (is_list_head _ _ _ H).
  - destruct H as (_ & r & _ & _ & Hl). eauto.
Qed.

Lemma is_list_addr_live h p l a :
  is_list h p l -> a ∈ addrs l -> a <> 0 /\ is_Some (h !! a).
Proof.
  revert p. induction l as [|v l IH]; intros p H Ha; simpl in *.
  - inversion Ha.
  - apply is_list_cons_inv in H as (Hp & Hnz & r & Hr & Hv & Hl).
    apply elem_of_cons in Ha as [->|Ha]; [|eauto].
    rewrite <- Hp. eauto.
Qed.

Lemma is_list_nodup h p l : is_list h p l -> NoDup (addrs l).
Proof.
  revert p. induction l as [|v l IH]; intros p H; simpl.
  - constructor.
  - pose proof H as H0.
    apply is_list_cons_inv in H as (Hp & Hnz & r & Hr & Hv & Hl).
    constructor; [|eauto].
    intros Hin. apply list_elem_of_fmap in Hin as (v' & Hv' & Hin).
    apply list_elem_of_split in Hin as (la & lb & ->).
    apply is_list_suffix in Hl. cbn [head_addr] in Hl.
    rewrite <- Hv', <- Hp in Hl.
    pose proof (is_list_functional _ _ _ _ H0 Hl) as Heq.
    apply (f_equal length) in Heq. simpl in Heq.
    rewrite length_app in Heq. simpl in Heq. lia.
Qed.

Lemma is_list_insert_other h p l a r :
  is_list h p l -> a ∉ addrs l -> is_list (<[a := r]> h) p l.
Proof.
  revert p. induction l as [|v l IH]; intros p H Ha; simpl in *; [easy|].
  apply is_list_cons_inv in H as (Hp & Hnz & r' & Hr & Hv & Hl).
  apply not_elem_of_cons in Ha as [Hne Ha].
  split; [easy|]. exists r'. rewrite lookup_insert_ne by congruence. eauto.
Qed.

Lemma is_list_delete_other h p l a :
  is_list h p l -> a ∉ addrs l -> is_list (delete a h) p l.
Proof.
  revert p. induction l as [|v l IH]; intros p H Ha; simpl in *; [easy|].
  apply is_list_cons_inv in H as (Hp & Hnz & r' & Hr & Hv & Hl).
  apply not_elem_of_cons in Ha as [Hne Ha].
  split; [easy|]. exists r'. rewrite lookup_delete_ne by congruence. eauto.
Qed.

Lemma is_list_lookup h p l1 v l2 :
  is_list h p (l1 ++ v :: l2) ->
  exists r, h !! v_addr v = Some r /\ view_of (v_addr v) r = v /\
            next r = head_addr l2 /\ v_addr v <> 0.
Proof.
  intros H. apply is_list_suffix in H. simpl in H.
  destruct H as (Hnz & r & Hr & Hv & Hl).
  exists r. repeat split; try easy. now apply is_list_head in Hl.
Qed.

(** The computed chain agrees with the predicate. *)
Lemma chain_is_list h l p fuel :
  is_list h p l -> (length l < fuel)%nat -> chain fuel h p = Done l.
Proof.
  revert p fuel. induction l as [|v l IH]; intros p [|fuel] H Hf;
    simpl in *; try lia.
  - now rewrite H.
  - destruct H as (Hnz & r & Hr & Hv & Hl).
    apply Z.eqb_neq in Hnz. rewrite Hnz, Hr.
    rewrite (IH _ fuel Hl) by lia. simpl. now rewrite Hv.
Qed.

End Chains.

(** ** Unlinking and releasing one node *)

Section Unregister.
Implicit Types (h : gmap Z LUMouse) (l : list view) (w : World).

(** A pointer that is no node of the chain: the loop runs to the end of
    the chain and changes nothing. *)
Lemma unlink_after_absent h l m mouse fuel :
  is_list h m l -> mouse <> 0 -> mouse ∉ addrs (tail l) ->
  (length l < fuel)%nat ->
  unlink_after fuel h m mouse = Done h.
Proof.
  revert m fuel. induction l as [|v l IH]; intros m [|fuel] H Hm Hn Hf;
    simpl in *; try lia.
  - now rewrite H.
  - destruct H as (Hnz & r & Hr & Hv & Hl).
    apply Z.eqb_neq in Hnz. rewrite Hnz, Hr.
    pose proof (is_list_head _ _ _ Hl) as Hnext.
    assert (next r <> mouse) as Hne.
    { rewrite Hnext. destruct l as [|v' l']; simpl in *; [congruence|].
      intros E. apply Hn. rewrite <- E. apply elem_of_cons. now left. }
    apply Z.eqb_neq in Hne. rewrite Hne.
    apply IH; try easy; try lia.
    intros Hin. apply Hn. destruct l; simpl in *; [easy|].
    apply elem_of_cons. now right.
Qed.

(** A node further down the chain: its predecessor is made to point past
    it, and nothing else changes. *)
Lemma unlink_after_member h u l1 v l2 fuel :
  is_list h (v_addr u) (u :: l1 ++ v :: l2) ->
  (length l1 < fuel)%nat ->
  exists h',
    unlink_after fuel h (v_addr u) (v_addr v) = Done h' /\
    is_list h' (v_addr u) (u :: l1 ++ l2) /\
    dom h' = dom h /\
    (forall b, b ∉ addrs (u :: l1) -> h' !! b = h !! b).
Proof.
  revert u fuel. induction l1 as [|u' l1 IH]; intros u [|fuel] H Hf;
    simpl in Hf; try lia.
  - pose proof (is_list_nodup _ _ _ H) as Hnd.
    apply is_list_cons_inv in H as (_ & Hnz & ru & Hru & Hvu & Hl).
    pose proof (is_list_head _ _ _ Hl) as Hn. cbn [app head_addr] in Hn.
    rewrite Hn in Hl.
    apply is_list_cons_inv in Hl as (_ & Hnz' & rv & Hrv & Hvv & Hl).
    cbn [unlink_after]. apply Z.eqb_neq in Hnz as Hnzb. rewrite Hnzb, Hru.
    rewrite Hn, Z.eqb_refl, Hrv.
    eexists. split; [reflexivity|].
    cbn [addrs fmap list_fmap app] in Hnd.
    apply NoDup_cons in Hnd as [Hnu Hnd].
    apply not_elem_of_cons in Hnu as [Huv Hnu].
    split; [|split].
    + cbn [app is_list]. split; [easy|]. eexists. rewrite lookup_insert_eq.
      split; [reflexivity|]. split; [exact Hvu|]. cbn [next set_next].
      now apply is_list_insert_other.
    + apply set_eq. intros x. rewrite dom_insert, elem_of_union,
        elem_of_singleton, !elem_of_dom.
      split; [intros [->|]; eauto | eauto].
    + intros b Hb. apply not_elem_of_cons in Hb as [Hb _].
      now rewrite lookup_insert_ne.
  - pose proof (is_list_nodup _ _ _ H) as Hnd.
    apply is_list_cons_inv in H as (_ & Hnz & ru & Hru & Hvu & Hl).
    pose proof (is_list_head _ _ _ Hl) as Hnext.
    cbn [app head_addr] in Hnext.
    cbn [addrs fmap list_fmap app] in Hnd.
    apply NoDup_cons in Hnd as [Hnu Hnd].
    assert (v_addr v ∈ addrs (l1 ++ v :: l2)) as Hvin.
    { unfold addrs. rewrite fmap_app. apply elem_of_app. right.
      apply elem_of_cons. now left. }
    assert (next ru <> v_addr v) as Hne.
    { rewrite Hnext. apply NoDup_cons in Hnd as [Hnu' _].
      intros E. apply Hnu'. rewrite E. exact Hvin. }
    cbn [unlink_after]. apply Z.eqb_neq in Hnz as Hnzb. rewrite Hnzb, Hru.
    apply Z.eqb_neq in Hne as Hneb. rewrite Hneb. rewrite Hnext.
    rewrite Hnext in Hl.
    destruct (IH u' fuel Hl ltac:(lia)) as (h' & Hrun & Hl' & Hdom & Hfr).
    exists h'. split; [exact Hrun|]. split; [|split].
    + change (is_list h' (v_addr u) (u :: (u' :: l1 ++ l2))).
      cbn [is_list]. split; [easy|]. exists ru. rewrite Hfr.
      * rewrite Hnext. split; [exact Hru|]. split; [exact Hvu|exact Hl'].
      * intros Hin. apply Hnu.
        change (v_addr u ∈ addrs ((u' :: l1) ++ v :: l2)). unfold addrs.
        rewrite fmap_app. apply elem_of_app. now left.
    + exact Hdom.
    + intros b Hb. apply not_elem_of_cons in Hb as [_ Hb]. now apply Hfr.
Qed.

End Unregister.

Section UnregisterMouse.
Implicit Types (h : gmap Z LUMouse) (l : list view) (w : World).

Lemma release_view_of a r : release a r = release_view (view_of a r).
Proof. reflexivity. Qed.

Lemma elem_of_addrs_middle l1 v l2 : v_addr v ∈ addrs (l1 ++ v :: l2).
Proof.
  unfold addrs. rewrite fmap_app. apply elem_of_app. right.
  apply elem_of_cons. now left.
Qed.

Lemma nodup_addrs_middle l1 v l2 :
  NoDup (addrs (l1 ++ v :: l2)) ->
  (v_addr v ∉ addrs l1) /\ (v_addr v ∉ addrs l2) /\
  NoDup (addrs (l1 ++ l2)).
Proof.
  unfold addrs. rewrite !fmap_app, fmap_cons. intros H.
  apply NoDup_app in H as (H1 & H12 & H2).
  apply NoDup_cons in H2 as (Hv & H2).
  split; [|split]; [| exact Hv |].
  - intros Hin. apply (H12 _ Hin). apply elem_of_cons. now left.
  - apply NoDup_app. split; [exact H1|]. split; [|exact H2].
    intros x Hx Hx'. apply (H12 _ Hx). apply elem_of_cons. now right.
Qed.

(** [unregister_mouse] on a live node that is not in the registry. *)
Lemma unregister_mouse_absent w l mouse r fuel :
  registry w l -> mouse <> 0 -> mouse ∉ addrs l ->
  heap w !! mouse = Some r -> (length l < fuel)%nat ->
  unregister_mouse fuel w mouse
  = Done (MkWorld (delete mouse (heap w)) (mice w)
                  (trace w ++ release mouse r)).
Proof.
  intros Hreg Hnz Hout Hr Hf. unfold unregister_mouse, unlink.
  apply Z.eqb_neq in Hnz as Hnzb. rewrite Hnzb.
  assert (mice w <> mouse) as Hne.
  { rewrite (is_list_head _ _ _ Hreg). destruct l as [|v l]; simpl; [congruence|].
    intros E. apply Hout. rewrite <- E. apply elem_of_cons. now left. }
  apply Z.eqb_neq in Hne. rewrite Hne.
  rewrite (unlink_after_absent _ l); try easy.
  - simpl. now rewrite Hr.
  - intros Hin. apply Hout. destruct l; simpl in *; [easy|].
    apply elem_of_cons. now right.
Qed.

(** [unregister_mouse] on a node of the registry. *)
Lemma unregister_mouse_member w l1 v l2 fuel :
  registry w (l1 ++ v :: l2) -> (length l1 < fuel)%nat ->
  exists w',
    unregister_mouse fuel w (v_addr v) = Done w' /\
    registry w' (l1 ++ l2) /\
    trace w' = trace w ++ release_view v /\
    dom (heap w') = dom (heap w) ∖ {[v_addr v]}.
Proof.
  intros Hreg Hf. unfold registry in Hreg.
  pose proof (is_list_nodup _ _ _ Hreg) as Hnd.
  apply nodup_addrs_middle in Hnd as (Hn1 & Hn2 & Hnd).
  destruct (is_list_lookup _ _ _ _ _ Hreg) as (rv & Hrv & Hvv & Hnext & Hnz).
  unfold unregister_mouse, unlink.
  apply Z.eqb_neq in Hnz as Hnzb. rewrite Hnzb.
  destruct l1 as [|u l1].
  - cbn [app] in *.
    pose proof (is_list_head _ _ _ Hreg) as Hhead. cbn [head_addr] in Hhead.
    rewrite Hhead, Z.eqb_refl, Hrv. simpl. rewrite Hrv.
    eexists. split; [reflexivity|]. unfold registry. cbn [heap mice trace].
    split; [|split].
    + apply is_list_delete_other; [|exact Hn2].
      apply is_list_cons_inv in Hreg as (_ & _ & r' & Hr' & _ & Hl).
      rewrite Hhead in Hr'. congruence.
    + now rewrite release_view_of, Hvv.
    + apply dom_delete_L.
  - assert (mice w = v_addr u) as Hhead by apply (is_list_head _ _ _ Hreg).
    assert (v_addr u <> v_addr v) as Hne.
    { intros E. apply Hn1. rewrite <- E. apply elem_of_cons. now left. }
    apply Z.eqb_neq in Hne as Hneb. rewrite Hhead, Hneb.
    rewrite Hhead in Hreg. cbn [app] in Hreg.
    destruct (unlink_after_member _ _ _ _ _ fuel Hreg ltac:(simpl in Hf; lia))
      as (h' & Hrun & Hl' & Hdom & Hfr).
    rewrite Hrun. simpl. rewrite Hfr by exact Hn1. rewrite Hrv.
    eexists. split; [reflexivity|]. unfold registry. cbn [heap mice trace].
    split; [|split].
    + apply is_list_delete_other; [exact Hl'|].
      intros Hin. change (v_addr v ∈ addrs ((u :: l1) ++ l2)) in Hin.
      unfold addrs in Hin. rewrite fmap_app in Hin.
      apply elem_of_app in Hin as [Hin|Hin]; [now apply Hn1 | now apply Hn2].
    + now rewrite release_view_of, Hvv.
    + rewrite dom_delete_L. now rewrite Hdom.
Qed.

End UnregisterMouse.

(** ** The sweep *)

Section Sweep.
Implicit Types (h : gmap Z LUMouse) (l : list view) (w : World).

Lemma view_of_state a r v : view_of a r = v -> state r = v_state v.
Proof. now intros <-. Qed.

Lemma sweep_spec inner rest :
  forall kept w fuel,
    registry w (kept ++ rest) ->
    (length (kept ++ rest) < inner)%nat -> (length rest < fuel)%nat ->
    exists w',
      sweep inner fuel w (head_addr rest) = Done w' /\
      registry w' (kept ++ List.filter alive_view rest) /\
      trace w' = trace w ++ released rest /\
      dom (heap w') =
        dom (heap w) ∖ list_to_set (addrs (List.filter dead_view rest)).
Proof.
  induction rest as [|v rest IH]; intros kept w [|fuel] Hreg Hin Hf;
    simpl in Hf; try lia.
  - exists w. rewrite app_nil_r in *. cbn [sweep head_addr List.filter].
    split; [reflexivity|]. split; [exact Hreg|]. split.
    + unfold released. cbn. now rewrite app_nil_r.
    + cbn. now rewrite difference_empty_L.
  - destruct (is_list_lookup _ _ _ _ _ Hreg) as (rv & Hrv & Hvv & Hnext & Hnz).
    cbn [sweep head_addr]. apply Z.eqb_neq in Hnz as Hnzb.
    rewrite Hnzb, Hrv, Hnext.
    rewrite (view_of_state _ _ _ Hvv).
    unfold released. cbn [List.filter]. unfold alive_view, dead_view.
    destruct (dead (v_state v)) eqn:Hd; cbn [negb].
    + rewrite length_app in Hin. cbn in Hin.
      destruct (unregister_mouse_member w kept v rest inner Hreg
                  ltac:(lia)) as (w1 & Hrun & Hreg1 & Htr1 & Hdom1).
      rewrite Hrun. cbn.
      destruct (IH kept w1 fuel Hreg1) as (w' & Hrun' & Hreg' & Htr' & Hdom');
        [rewrite length_app; lia | lia |].
      exists w'. split; [exact Hrun'|]. split; [exact Hreg'|]. split.
      * rewrite Htr', Htr1. unfold released. now rewrite <- app_assoc.
      * rewrite Hdom', Hdom1. cbn. now rewrite difference_difference_l_L.
    + cbn.
      destruct (IH (kept ++ [v]) w fuel) as (w' & Hrun' & Hreg' & Htr' & Hdom');
        [now rewrite <- app_assoc | now rewrite <- app_assoc | lia |].
      exists w'. split; [exact Hrun'|]. split; [|split].
      * now rewrite <- app_assoc in Hreg'.
      * exact Htr'.
      * exact Hdom'.
Qed.

Lemma unregister_dead_mice_spec w l fuel :
  registry w l -> (length l < fuel)%nat ->
  exists w',
    unregister_dead_mice fuel w = Done w' /\
    registry w' (List.filter alive_view l) /\
    trace w' = trace w ++ released l /\
    dom (heap w') =
      dom (heap w) ∖ list_to_set (addrs (List.filter dead_view l)).
Proof.
  intros Hreg Hf. unfold unregister_dead_mice.
  rewrite (is_list_head _ _ _ Hreg).
  apply (sweep_spec fuel l [] w fuel); easy.
Qed.

(** ** Marking every mouse dead *)

Lemma mark_all_dead_spec rest :
  forall h p fuel,
    is_list h p rest -> (length rest < fuel)%nat ->
    exists h',
      mark_all_dead fuel h p = Done h' /\
      is_list h' p (List.map mark_dead rest) /\
      dom h' = dom h /\
      (forall b, b ∉ addrs rest -> h' !! b = h !! b).
Proof.
  induction rest as [|v rest IH]; intros h p [|fuel] Hl Hf;
    simpl in Hf; try lia.
  - cbn in *. rewrite Hl. cbn. exists h. easy.
  - pose proof (is_list_nodup _ _ _ Hl) as Hnd.
    cbn [addrs fmap list_fmap] in Hnd. apply NoDup_cons in Hnd as [Hnv Hnd].
    apply is_list_cons_inv in Hl as (Hp & Hnz & r & Hr & Hv & Hl).
    cbn [mark_all_dead]. apply Z.eqb_neq in Hnz as Hnzb. rewrite Hnzb, Hr.
    rewrite <- Hp in Hnv.
    destruct (IH (<[p := set_state r (Z.lor (state r) MOUSE_STATE_DEAD)]> h)
                 (next r) fuel) as (h' & Hrun & Hl' & Hdom & Hfr);
      [now apply is_list_insert_other | lia |].
    exists h'. split; [exact Hrun|]. split; [|split].
    + cbn [List.map is_list]. split; [exact Hnz|].
      exists (set_state r (Z.lor (state r) MOUSE_STATE_DEAD)).
      rewrite Hfr by exact Hnv. rewrite lookup_insert_eq.
      split; [reflexivity|]. split; [now rewrite <- Hv | exact Hl'].
    + rewrite Hdom. apply set_eq. intros x.
      rewrite dom_insert, elem_of_union, elem_of_singleton, !elem_of_dom.
      split; [intros [->|]; eauto | eauto].
    + intros b Hb.
      change (b ∉ v_addr v :: addrs rest) in Hb.
      apply not_elem_of_cons in Hb as [Hb1 Hb2].
      rewrite Hfr by exact Hb2. rewrite lookup_insert_ne; congruence.
Qed.

End Sweep.

(** ** Polling *)

Section Poll.
Variable reads : Z -> list (Z * input_event).
Implicit Types (h : gmap Z LUMouse) (l : list view) (w : World).

Lemma polled_inv v o :
  polled reads v = Done o ->
  exists status st out,
    read_burst (reads (v_dev v)) (v_sink v) (v_state v)
    = Done (status, st, out) /\
    o = (status, with_state v (fst (after_burst status st)),
         out ++ snd (after_burst status st)).
Proof.
  unfold polled.
  destruct (read_burst _ _ _) as [[[status st] out]| |]; cbn; try easy.
  destruct (after_burst status st) as [st' log] eqn:E. cbn.
  intros [= <-]. exists status, st, out. now rewrite E.
Qed.

Lemma poll_mice_spec rest :
  forall outs w p fuel,
    is_list (heap w) p rest ->
    Forall2 (fun v o => polled reads v = Done o) rest outs ->
    (length rest < fuel)%nat ->
    exists w',
      poll_mice fuel reads w p = Done w' /\
      is_list (heap w') p (List.map polled_view outs) /\
      mice w' = mice w /\
      trace w' = trace w ++ concat (List.map polled_effects outs) /\
      dom (heap w') = dom (heap w) /\
      (forall b, b ∉ addrs rest -> heap w' !! b = heap w !! b).
Proof.
  induction rest as [|v rest IH]; intros outs w p [|fuel] Hl Hout Hf;
    simpl in Hf; try lia.
  - apply Forall2_nil_inv_l in Hout as ->. cbn in *. rewrite Hl. cbn.
    exists w. rewrite app_nil_r. easy.
  - apply Forall2_cons_inv_l in Hout as (o & outs' & Ho & Hout & ->).
    pose proof (is_list_nodup _ _ _ Hl) as Hnd.
    cbn [addrs fmap list_fmap] in Hnd. apply NoDup_cons in Hnd as [Hnv Hnd].
    apply is_list_cons_inv in Hl as (Hp & Hnz & r & Hr & Hv & Hl).
    rewrite <- Hp in Hnv.
    apply polled_inv in Ho as (status & st & out & Hburst & ->).
    rewrite <- Hv in Hburst. cbn [v_dev v_sink v_state view_of] in Hburst.
    cbn [poll_mice]. apply Z.eqb_neq in Hnz as Hnzb. rewrite Hnzb, Hr.
    rewrite Hburst. cbn [mbind result_bind bind].
    destruct (after_burst status st) as [st' log] eqn:E. cbn [fst snd].
    destruct (IH outs'
                (MkWorld (<[p := set_state r st']> (heap w)) (mice w)
                         (trace w ++ out ++ log))
                (next r) fuel) as (w' & Hrun & Hl' & Hm & Htr & Hdom & Hfr);
      [cbn; now apply is_list_insert_other | exact Hout | lia |].
    cbn [heap mice trace] in *.
    exists w'. split; [exact Hrun|]. split; [|split; [|split; [|split]]].
    + cbn [List.map is_list]. split; [exact Hnz|].
      exists (set_state r st'). rewrite Hfr by exact Hnv.
      rewrite lookup_insert_eq. split; [reflexivity|].
      split; [now rewrite <- Hv | exact Hl'].
    + exact Hm.
    + rewrite Htr. cbn. now rewrite <- !app_assoc.
    + rewrite Hdom. apply set_eq. intros x.
      rewrite dom_insert, elem_of_union, elem_of_singleton, !elem_of_dom.
      split; [intros [->|]; eauto | eauto].
    + intros b Hb.
      change (b ∉ v_addr v :: addrs rest) in Hb.
      apply not_elem_of_cons in Hb as [Hb1 Hb2].
      rewrite Hfr by exact Hb2. rewrite lookup_insert_ne; congruence.
Qed.

End Poll.

(** ** Registration *)

Section Register.
Implicit Types (h : gmap Z LUMouse) (l : list view) (w : World).

Lemma fresh_not_in_registry w l a :
  registry w l -> heap w !! a = None -> a ∉ addrs l.
Proof.
  intros Hreg Ha Hin.
  destruct (is_list_addr_live _ _ _ _ Hreg Hin) as [_ [r Hr]]. congruence.
Qed.

(** A failed attempt: the node is filled in, then handed to
    [unregister_mouse], which finds it in no chain and releases it. *)
Lemma check_register_mouse_failed w l path pr r t fuel :
  registry w l ->
  start_with path (DEV_INPUT ++ "/event") = true ->
  p_calloc pr <> 0 -> heap w !! p_calloc pr = None ->
  acquire path pr = (false, r, t) ->
  (length l < fuel)%nat ->
  check_register_mouse fuel (Some path) pr w
  = Done (MkWorld (heap w) (mice w)
                  (trace w ++ t ++ release (p_calloc pr) r)).
Proof.
  intros Hreg Hpath Hnz Hfresh Hacq Hf. unfold check_register_mouse.
  rewrite Hpath. cbn [negb]. apply Z.eqb_neq in Hnz as Hnzb. rewrite Hnzb.
  rewrite Hacq. cbn [negb].
  pose proof (fresh_not_in_registry _ _ _ Hreg Hfresh) as Hout.
  rewrite (unregister_mouse_absent _ l _ r); cbn [heap mice trace];
    try easy.
  - rewrite delete_insert_id by exact Hfresh. now rewrite <- app_assoc.
  - unfold registry. cbn. now apply is_list_insert_other.
  - apply lookup_insert_eq.
Qed.

(** A successful attempt: the node becomes the head of the chain. *)
Lemma check_register_mouse_ok w l path pr r t fuel :
  registry w l ->
  start_with path (DEV_INPUT ++ "/event") = true ->
  p_calloc pr <> 0 -> heap w !! p_calloc pr = None ->
  acquire path pr = (true, r, t) ->
  exists w',
    check_register_mouse fuel (Some path) pr w = Done w' /\
    mice w' = p_calloc pr /\
    registry w' (view_of (p_calloc pr) r :: l) /\
    trace w' = trace w ++ t ++ [EMsg (MsgRegistered (p_name pr) path)].
Proof.
  intros Hreg Hpath Hnz Hfresh Hacq. unfold check_register_mouse.
  rewrite Hpath. cbn [negb]. apply Z.eqb_neq in Hnz as Hnzb. rewrite Hnzb.
  rewrite Hacq. cbn [negb].
  pose proof (fresh_not_in_registry _ _ _ Hreg Hfresh) as Hout.
  eexists. split; [reflexivity|]. cbn [heap mice trace].
  split; [reflexivity|]. split.
  - unfold registry. cbn [heap mice is_list]. split; [exact Hnz|].
    eexists. rewrite lookup_insert_eq. split; [reflexivity|].
    split; [reflexivity|]. cbn [next set_next].
    apply is_list_insert_other; [|exact Hout].
    apply is_list_insert_other; [exact Hreg|exact Hout].
  - now rewrite <- app_assoc.
Qed.

End Register.

(** ** Registry theorems *)

Lemma chain_sound (fuel : nat) :
  forall (h : gmap Z LUMouse) (p : Z) (l : list view),
    chain fuel h p = Done l -> is_list h p l.
Proof.
  induction fuel as [|fuel IH]; intros h p l; cbn [chain]; [easy|].
  destruct (Z.eqb_spec p 0) as [->|Hnz].
  - now intros [= <-].
  - destruct (h !! p) as [r|] eqn:Hr; [|easy].
    destruct (chain fuel h (next r)) as [l'| |] eqn:Hc; cbn; try easy.
    intros [= <-]. cbn. split; [exact Hnz|]. exists r. eauto.
Qed.

(** C10. [unregister_mouse] on a pointer that is NULL or a live node
    outside the registry returns, leaves [g.mice] as it is, and the chain
    behind it is the same list of nodes in the same order. *)
Theorem unregister_absent_preserves_registry
    (w : World) (l : list view) (mouse : Z) (fuel : nat) :
  registry w l -> mouse ∉ addrs l ->
  mouse = 0 \/ is_Some (heap w !! mouse) ->
  (length l < fuel)%nat ->
  exists w',
    unregister_mouse fuel w mouse = Done w' /\
    mice w' = mice w /\
    registry w' l /\
    chain fuel (heap w') (mice w') = Done l.
Proof.
  intros Hreg Hout Hlive Hf.
  destruct (Z.eq_dec mouse 0) as [->|Hnz].
  - exists w. unfold unregister_mouse. cbn.
    repeat split; try easy. now apply chain_is_list.
  - destruct Hlive as [->|[r Hr]]; [easy|].
    rewrite (unregister_mouse_absent w l mouse r fuel) by easy.
    eexists. split; [reflexivity|]. cbn [heap mice].
    assert (registry (MkWorld (delete mouse (heap w)) (mice w)
                              (trace w ++ release mouse r)) l) as Hreg'.
    { unfold registry. cbn [heap mice]. now apply is_list_delete_other. }
    split; [reflexivity|]. split; [exact Hreg'|].
    now apply chain_is_list.
Qed.

Lemma unregister_absent_preserves_registry_witness :
  exists w',
    unregister_mouse 3 w_pending 32 = Done w' /\
    mice w' = mice w_pending /\
    registry w' [MkView 16 3 100 200 0] /\
    chain 3 (heap w') (mice w') = Done [MkView 16 3 100 200 0].
Proof.
  apply (unregister_absent_preserves_registry w_pending
           [MkView 16 3 100 200 0] 32 3).
  - apply (chain_sound 3). reflexivity.
  - cbn. intros H. apply elem_of_cons in H as [H|H]; [discriminate | inversion H].
  - right. vm_compute. eauto.
  - simpl. lia.
Defined.

(** C5. A candidate whose descriptor could be built is registered only if
    it has relative axes and a middle button.  When either is missing the
    attempt returns with the heap and [g.mice] exactly as they were, the
    descriptor freed, the file closed, the node freed, and no message of
    any kind printed.  When both are present and the sink and the grab
    succeed, the device becomes the head of the registry. *)
Theorem ineligible_device_rejected
    (w : World) (l : list view) (path : string) (pr : probe) (fuel : nat) :
  registry w l ->
  start_with path (DEV_INPUT ++ "/event") = true ->
  p_calloc pr <> 0 -> heap w !! p_calloc pr = None ->
  0 <= p_new_status pr ->
  (length l < fuel)%nat ->
  (is_mouse pr = true <->
     p_has_rel pr = true /\ p_has_btn_middle pr = true)
  /\ (is_mouse pr = false ->
      exists w',
        check_register_mouse fuel (Some path) pr w = Done w' /\
        heap w' = heap w /\ mice w' = mice w /\ registry w' l /\
        trace w' = trace w ++
          [EOpen path (p_open pr); ENewFromFd (p_open pr) (p_new_status pr);
           EUngrab (p_dev pr); EFreeDev (p_dev pr); EClose (p_open pr);
           EFree (p_calloc pr)])
  /\ (is_mouse pr = true ->
      0 <= p_uinput_status pr -> 0 <= p_grab_status pr ->
      exists w',
        check_register_mouse fuel (Some path) pr w = Done w' /\
        registry w'
          (MkView (p_calloc pr) (p_open pr) (p_dev pr) (p_uinput pr) 0 :: l)).
Proof.
  intros Hreg Hpath Hnz Hfresh Hnew Hf.
  apply Z.leb_le in Hnew.
  split; [apply andb_true_iff|]. split.
  - intros Hm.
    erewrite check_register_mouse_failed; try eassumption.
    2:{ unfold acquire. rewrite Hnew, Hm. reflexivity. }
    eexists. split; [reflexivity|]. cbn [heap mice trace].
    repeat split. exact Hreg.
  - intros Hm Hu Hg. apply Z.leb_le in Hu, Hg.
    edestruct check_register_mouse_ok as (w' & Hrun & _ & Hreg' & _);
      try eassumption.
    { unfold acquire. rewrite Hnew, Hm, Hu, Hg. reflexivity. }
    exists w'. split; [exact Hrun | exact Hreg'].
Qed.

Lemma ineligible_device_rejected_witness :
  exists w',
    check_register_mouse 3 (Some event4) pr_keyboard w_one = Done w' /\
    heap w' = heap w_one /\ mice w' = mice w_one /\
    registry w' [MkView 16 3 100 200 0] /\
    trace w' = trace w_one ++
      [EOpen event4 4; ENewFromFd 4 0; EUngrab 101; EFreeDev 101; EClose 4;
       EFree 32].
Proof.
  refine (proj1 (proj2 (ineligible_device_rejected w_one
            [MkView 16 3 100 200 0] event4 pr_keyboard 3 _ _ _ _ _ _)) _).
  - apply (chain_sound 3). reflexivity.
  - reflexivity.
  - discriminate.
  - reflexivity.
  - simpl. lia.
  - simpl. lia.
  - reflexivity.
Defined.

(** X27. For an eligible candidate: when the sink cannot be created, or
    the sink is created and the grab fails, the attempt prints the failure
    with its error number and hands the node to [unregister_mouse], which
    releases the grab, frees the descriptor, closes the file and frees the
    node; the heap and [g.mice] are left exactly as they were.  When both
    steps succeed the new mouse is the head of the registry and the
    registration is printed. *)
Theorem registration_transactional
    (w : World) (l : list view) (path : string) (pr : probe) (fuel : nat) :
  registry w l ->
  start_with path (DEV_INPUT ++ "/event") = true ->
  p_calloc pr <> 0 -> heap w !! p_calloc pr = None ->
  0 <= p_new_status pr -> is_mouse pr = true ->
  (length l < fuel)%nat ->
  let cleanup := [EUngrab (p_dev pr); EFreeDev (p_dev pr);
                  EClose (p_open pr); EFree (p_calloc pr)] in
  let opened := [EOpen path (p_open pr);
                 ENewFromFd (p_open pr) (p_new_status pr);
                 EUinputCreate (p_dev pr) (p_uinput_status pr)] in
  (p_uinput_status pr < 0 ->
     check_register_mouse fuel (Some path) pr w
     = Done (MkWorld (heap w) (mice w)
               (trace w ++ opened ++
                [EMsg (MsgFailedUinput path (- p_uinput_status pr))] ++
                cleanup)))
  /\ (0 <= p_uinput_status pr -> p_grab_status pr < 0 ->
      check_register_mouse fuel (Some path) pr w
      = Done (MkWorld (heap w) (mice w)
                (trace w ++ opened ++
                 [EGrab (p_dev pr) (p_grab_status pr);
                  EMsg (MsgFailedGrab path (- p_grab_status pr))] ++
                 cleanup)))
  /\ (0 <= p_uinput_status pr -> 0 <= p_grab_status pr ->
      exists w',
        check_register_mouse fuel (Some path) pr w = Done w' /\
        mice w' = p_calloc pr /\
        registry w'
          (MkView (p_calloc pr) (p_open pr) (p_dev pr) (p_uinput pr) 0 :: l) /\
        trace w' = trace w ++ opened ++
          [EGrab (p_dev pr) (p_grab_status pr);
           EMsg (MsgRegistered (p_name pr) path)]).
Proof.
  intros Hreg Hpath Hnz Hfresh Hnew Hm Hf cleanup opened.
  apply Z.leb_le in Hnew.
  split; [|split].
  - intros Hu. apply Z.leb_gt in Hu.
    erewrite check_register_mouse_failed; try eassumption.
    2:{ unfold acquire. rewrite Hnew, Hm, Hu. reflexivity. }
    reflexivity.
  - intros Hu Hg. apply Z.leb_le in Hu. apply Z.leb_gt in Hg.
    erewrite check_register_mouse_failed; try eassumption.
    2:{ unfold acquire. rewrite Hnew, Hm, Hu, Hg. reflexivity. }
    reflexivity.
  - intros Hu Hg. apply Z.leb_le in Hu, Hg.
    edestruct check_register_mouse_ok as (w' & Hrun & Hmice & Hreg' & Htr);
      try eassumption.
    { unfold acquire. rewrite Hnew, Hm, Hu, Hg. reflexivity. }
    exists w'. split; [exact Hrun|]. split; [exact Hmice|].
    split; [exact Hreg'|]. rewrite Htr. reflexivity.
Qed.

Lemma registration_transactional_witness :
  check_register_mouse 3 (Some event4) pr_busy w_one
  = Done (MkWorld (heap w_one) (mice w_one)
            (trace w_one ++
             [EOpen event4 4; ENewFromFd 4 0; EUinputCreate 101 0] ++
             [EGrab 101 (-16); EMsg (MsgFailedGrab event4 (- -16))] ++
             [EUngrab 101; EFreeDev 101; EClose 4; EFree 32])).
Proof.
  refine (proj1 (proj2 (registration_transactional w_one
            [MkView 16 3 100 200 0] event4 pr_busy 3 _ _ _ _ _ _ _)) _ _).
  - apply (chain_sound 3). reflexivity.
  - reflexivity.
  - discriminate.
  - reflexivity.
  - simpl. lia.
  - reflexivity.
  - simpl. lia.
  - simpl. lia.
  - simpl. lia.
Defined.

(** C6, at the failing input.  A mouse on /dev/input/event4 whose sink 201
    is created and whose grab then fails with EBUSY: the attempt ends with
    the node freed, and [libevdev_uinput_destroy] has not been called on
    the sink.  The undo that [unregister_mouse] performs misses the sink,
    whose only handle was in the node it frees. *)
Lemma created_sink_not_destroyed :
  exists w',
    check_register_mouse 3 (Some event4) pr_busy w_one = Done w' /\
    In (EUinputCreate (p_dev pr_busy) 0) (trace w') /\
    0 <= p_uinput_status pr_busy /\
    ~ In (EUinputDestroy (p_uinput pr_busy)) (trace w').
Proof.
  eexists. split; [vm_compute; reflexivity|]. cbn [trace].
  split; [cbn; tauto|]. split; [vm_compute; discriminate|].
  cbn. intros H. repeat destruct H as [H|H]; try discriminate H; exact H.
Qed.

(** ** One round of polling and sweeping *)

Section Round.
Variable reads : Z -> list (Z * input_event).
Implicit Types (l : list view) (w : World).

Lemma forward_no_destroy sink st evt :
  existsb is_sink_destroy (forward sink st evt) = false.
Proof.
  unfold forward. destruct (scrolling st); [|reflexivity].
  destruct ((ev_type evt =? EV_REL) && (ev_code evt =? REL_Y)); reflexivity.
Qed.

Lemma read_burst_inv script :
  forall sink st0 status st out,
    read_burst script sink st0 = Done (status, st, out) ->
    status < 0 /\ dead st = dead st0 /\
    existsb is_sink_destroy out = false.
Proof.
  induction script as [|[s evt] rest IH]; intros sink st0 status st out;
    cbn [read_burst]; [easy|].
  destruct (Z.ltb_spec s 0) as [Hs|Hs].
  - intros [= <- <- <-]. easy.
  - unfold handle_event.
    destruct (read_burst rest sink (update_state st0 evt))
      as [[[s' st'] out']| |] eqn:E; cbn; try easy.
    intros [= <- <- <-].
    destruct (IH _ _ _ _ _ E) as (Hneg & Hd & Hno).
    split; [exact Hneg|]. split.
    + now rewrite Hd, dead_update_state.
    + now rewrite existsb_app, forward_no_destroy, Hno.
Qed.

Lemma polled_facts v o :
  polled reads v = Done o ->
  release_view (polled_view o) = release_view v /\
  v_addr (polled_view o) = v_addr v /\
  existsb is_sink_destroy (polled_effects o) = false /\
  (polled_status o <> - EAGAIN ->
     dead_view (polled_view o) = true /\
     exists out,
       polled_effects o = out ++ [EMsg (MsgReadFailed (polled_status o))]) /\
  (polled_status o = - EAGAIN ->
     dead_view (polled_view o) = dead_view v).
Proof.
  intros H. apply polled_inv in H as (status & st & out & Hb & ->).
  apply read_burst_inv in Hb as (_ & Hd & Hno).
  unfold polled_view, polled_status, polled_effects, after_burst.
  cbn [fst snd]. split; [reflexivity|]. split; [reflexivity|].
  destruct (Z.eqb_spec status (- EAGAIN)) as [He|He]; cbn [fst snd].
  - split; [now rewrite app_nil_r|]. split; [easy|].
    intros _. unfold dead_view. cbn. exact Hd.
  - split; [now rewrite existsb_app, Hno|]. split; [|easy].
    intros _. split; [apply dead_set | now exists out].
Qed.

Lemma released_app l1 l2 : released (l1 ++ l2) = released l1 ++ released l2.
Proof.
  unfold released. now rewrite List.filter_app, List.map_app, concat_app.
Qed.

End Round.

(** X28. In one round (every mouse read until its burst ends, then the
    sweep), with [outs] what the reads make of each mouse: the round
    returns; a mouse whose burst ended on a status other than [-EAGAIN] has
    that status printed, is marked dead, and is gone from the registry and
    from the heap when the round ends, its grab released, its descriptor
    freed, its file closed and its node freed, in this order and after the
    message; a mouse whose burst ended on [-EAGAIN] keeps its liveness, and
    stays registered if it was alive. *)
Theorem read_failure_sweeps_mouse
    (reads : Z -> list (Z * input_event)) (w : World) (l : list view)
    (outs : list (Z * view * list effect)) (fuel : nat) :
  registry w l ->
  Forall2 (fun v o => polled reads v = Done o) l outs ->
  (length l < fuel)%nat ->
  exists w1 w',
    poll_mice fuel reads w (mice w) = Done w1 /\
    registry w1 (List.map polled_view outs) /\
    poll_and_sweep fuel reads w = Done w' /\
    registry w' (List.filter alive_view (List.map polled_view outs)) /\
    forall (i : nat) v o,
      l !! i = Some v -> outs !! i = Some o ->
      (polled_status o <> - EAGAIN ->
         dead_view (polled_view o) = true /\
         heap w' !! v_addr v = None /\
         (v_addr v ∉
            addrs (List.filter alive_view (List.map polled_view outs))) /\
         exists pre mid post,
           trace w' = trace w ++ pre ++
             [EMsg (MsgReadFailed (polled_status o))] ++ mid ++
             release_view v ++ post)
      /\ (polled_status o = - EAGAIN ->
          dead_view (polled_view o) = dead_view v /\
          (dead_view v = false ->
             polled_view o ∈
               List.filter alive_view (List.map polled_view outs))).
Proof.
  intros Hreg Hout Hf.
  destruct (poll_mice_spec reads l outs w (mice w) fuel Hreg Hout Hf)
    as (w1 & Hrun1 & Hl1 & Hm1 & Htr1 & Hdom1 & _).
  assert (registry w1 (List.map polled_view outs)) as Hreg1.
  { unfold registry. now rewrite Hm1. }
  pose proof (Forall2_length _ _ _ Hout) as Hlen.
  destruct (unregister_dead_mice_spec w1 _ fuel Hreg1)
    as (w' & Hrun2 & Hreg2 & Htr2 & Hdom2);
    [rewrite length_map; lia|].
  exists w1, w'. split; [exact Hrun1|]. split; [exact Hreg1|].
  split; [unfold poll_and_sweep; rewrite Hrun1; exact Hrun2|].
  split; [exact Hreg2|].
  intros i v o Hv Ho.
  pose proof (Forall2_lookup_lr _ _ _ _ _ _ Hout Hv Ho) as Hp.
  destruct (polled_facts reads v o Hp) as (Hrel & Haddr & _ & Hfail & Hagain).
  assert (List.map polled_view outs !! i = Some (polled_view o)) as Hvi.
  { change (List.map polled_view outs) with (polled_view <$> outs).
    now rewrite list_lookup_fmap, Ho. }
  assert (polled_view o ∈ List.map polled_view outs) as Hmem
    by (eapply list_elem_of_lookup_2; exact Hvi).
  split.
  - intros Hst. destruct (Hfail Hst) as (Hdead & out & Heff).
    assert (heap w' !! v_addr v = None) as Hgone.
    { apply not_elem_of_dom. rewrite Hdom2. intros Hin.
      apply elem_of_difference in Hin as [_ Hin]. apply Hin.
      apply elem_of_list_to_set. rewrite <- Haddr.
      apply list_elem_of_fmap. exists (polled_view o). split; [reflexivity|].
      apply list_elem_of_In, List.filter_In. split; [|exact Hdead].
      now apply list_elem_of_In. }
    split; [exact Hdead|]. split; [exact Hgone|]. split.
    + intros Hin.
      destruct (is_list_addr_live _ _ _ _ Hreg2 Hin) as [_ [r Hr]].
      congruence.
    + rewrite Htr2, Htr1.
      rewrite <- (take_drop_middle _ _ _ Ho).
      rewrite !List.map_app, concat_app, released_app.
      cbn [List.map concat].
      change (polled_view o :: List.map polled_view (drop (S i) outs))
        with ([polled_view o] ++ List.map polled_view (drop (S i) outs)).
      rewrite released_app. unfold released at 2. cbn [List.filter].
      rewrite Hdead. cbn [List.map concat]. rewrite Hrel, Heff, app_nil_r.
      exists (concat (List.map polled_effects (take i outs)) ++ out),
        (concat (List.map polled_effects (drop (S i) outs)) ++
         released (List.map polled_view (take i outs))),
        (released (List.map polled_view (drop (S i) outs))).
      now rewrite <- !app_assoc.
  - intros Hst. split; [now apply Hagain|].
    intros Halive. apply list_elem_of_In, List.filter_In.
    split; [now apply list_elem_of_In|].
    unfold alive_view. unfold dead_view in *.
    now rewrite (Hagain Hst), Halive.
Qed.

Lemma read_failure_sweeps_mouse_witness :
  exists w',
    poll_and_sweep 3 reads_gone w_two = Done w' /\
    registry w' [MkView 48 5 102 202 0] /\
    heap w' !! 16 = None.
Proof.
  destruct (read_failure_sweeps_mouse reads_gone w_two
              [MkView 16 3 100 200 0; MkView 48 5 102 202 0]
              [(-19, MkView 16 3 100 200 5, [EMsg (MsgReadFailed (-19))]);
               (- EAGAIN, MkView 48 5 102 202 0, [])] 3)
    as (w1 & w' & _ & _ & Hrun & Hreg & Hper).
  - apply (chain_sound 3). reflexivity.
  - repeat constructor.
  - simpl. lia.
  - exists w'. split; [exact Hrun|]. split; [exact Hreg|].
    apply (Hper 0%nat (MkView 16 3 100 200 0)
             (-19, MkView 16 3 100 200 5, [EMsg (MsgReadFailed (-19))])
             eq_refl eq_refl).
    discriminate.
Defined.

(** C7, at the failing input.  The mouse at 16 reads a press and then
    loses its device (ENODEV): within the round it is removed from the
    registry, released and its node freed, and
    [libevdev_uinput_destroy] has not been called on its sink 200.  The
    removal misses the sink, whose only handle was in the node it
    frees. *)
Lemma dead_mouse_sink_not_destroyed :
  exists w',
    poll_and_sweep 3 reads_gone w_one = Done w' /\
    mice w' = 0 /\ heap w' !! 16 = None /\
    In (EFree 16) (trace w') /\
    ~ In (EUinputDestroy 200) (trace w').
Proof.
  eexists. split; [vm_compute; reflexivity|]. cbn [trace mice heap].
  split; [reflexivity|]. split; [reflexivity|]. split; [cbn; tauto|].
  cbn. intros H. repeat destruct H as [H|H]; try discriminate H; exact H.
Qed.

(** ** Shutdown *)

Section Shutdown.
Implicit Types (l : list view) (w : World).

Lemma dead_view_mark_dead v : dead_view (mark_dead v) = true.
Proof. unfold dead_view, mark_dead. cbn. apply dead_set. Qed.

Lemma filter_alive_marked l :
  List.filter alive_view (List.map mark_dead l) = [].
Proof.
  induction l as [|v l IH]; [reflexivity|]. cbn [List.map List.filter].
  unfold alive_view at 1. fold (dead_view (mark_dead v)).
  now rewrite dead_view_mark_dead.
Qed.


Lemma addrs_marked l : addrs (List.map mark_dead l) = addrs l.
Proof.
  unfold addrs. induction l as [|v l IH]; [reflexivity|].
  cbn. now rewrite <- IH.
Qed.




End Shutdown.



(** ** A full round on a sample world

    A mouse is plugged in while the registered one loses its device: the
    newcomer becomes the head of the registry, the old mouse is released,
    and its predecessor in the chain is made to point past it. *)
Example loop_iteration_hotplug :
  loop_iteration 4 [MkUdev "add" (Some event4) pr_ok] reads_gone w_one
  = Done (MkWorld {[ 32 := MkMouse 4 101 201 0 0 ]} 32
            [EOpen event4 4; ENewFromFd 4 0; EUinputCreate 101 0;
             EGrab 101 0; EMsg (MsgRegistered "m" event4);
             EMsg (MsgReadFailed (-19));
             EUngrab 100; EFreeDev 100; EClose 3; EFree 16]).
Proof. vm_compute. reflexivity. Qed.

(** * Further properties *)

(** ** The gesture recogniser over whole bursts *)

Lemma handle_events_cons (sink st : Z) (evt : input_event)
    (rest : list input_event) :
  handle_events sink st (evt :: rest)
  = (fst (handle_events sink (update_state st evt) rest),
     forward sink (update_state st evt) evt
     ++ snd (handle_events sink (update_state st evt) rest)).
Proof.
  cbn [handle_events]. unfold handle_event.
  now destruct (handle_events sink (update_state st evt) rest).
Qed.

Lemma handle_events_split (sink st : Z) (a b : list input_event) :
  handle_events sink st (a ++ b)
  = (fst (handle_events sink (fst (handle_events sink st a)) b),
     snd (handle_events sink st a)
     ++ snd (handle_events sink (fst (handle_events sink st a)) b)).
Proof.
  revert st. induction a as [|evt a IH]; intros st.
  - cbn. now destruct (handle_events sink st b).
  - cbn [app]. rewrite !handle_events_cons, IH. cbn [fst snd].
    now rewrite <- app_assoc.
Qed.

Lemma update_state_not_button (st : Z) (evt : input_event) :
  is_middle_button evt = false -> update_state st evt = st.
Proof. unfold update_state. now intros ->. Qed.

Lemma scrolling_burst_writes (sink st : Z) (evts : list input_event) :
  Scrolling st ->
  Forall (fun evt => is_middle_button evt = false) evts ->
  handle_events sink st evts
  = (st, List.map (wheel_of sink) (List.filter is_rel_y evts)).
Proof.
  intros Hs Hall. induction Hall as [|evt evts Hm _ IH]; [reflexivity|].
  rewrite handle_events_cons, (update_state_not_button _ _ Hm), IH.
  cbn [fst snd List.filter]. unfold forward. rewrite Hs.
  fold (is_rel_y evt). now destruct (is_rel_y evt).
Qed.

(** X2. While the scrolling bit is set, a burst without middle-button
    events leaves the state word as it is and writes one wheel event for
    each REL_Y event, in order, and nothing for any other event: clicks,
    horizontal motion and sync reports are swallowed. *)
Theorem scrolling_burst (sink st : Z) (evts : list input_event) :
  Scrolling st ->
  Forall (fun evt => is_middle_button evt = false) evts ->
  handle_events sink st evts
  = (st, List.map (wheel_of sink) (List.filter is_rel_y evts)).
Proof.
  intros Hs Hall. induction Hall as [|evt evts Hm _ IH]; [reflexivity|].
  rewrite handle_events_cons, (update_state_not_button _ _ Hm), IH.
  cbn [fst snd List.filter]. unfold forward. rewrite Hs.
  fold (is_rel_y evt). now destruct (is_rel_y evt).
Qed.

Lemma scrolling_burst_witness :
  handle_events 7 MOUSE_STATE_SCROLLING
    [ev_rel_y 2; InputEvent EV_REL 0 9; InputEvent EV_KEY 272 1; ev_rel_y (-1)]
  = (MOUSE_STATE_SCROLLING,
     [EWrite 7 EV_REL REL_WHEEL_HI_RES (-4);
      EWrite 7 EV_REL REL_WHEEL_HI_RES 2]).
Proof.
  apply (scrolling_burst 7 MOUSE_STATE_SCROLLING
           [ev_rel_y 2; InputEvent EV_REL 0 9; InputEvent EV_KEY 272 1;
            ev_rel_y (-1)]).
  - reflexivity.
  - repeat constructor.
Defined.

Lemma handle_event_idle (sink st : Z) (evt : input_event) :
  scrolling st = false -> is_press evt = false ->
  update_state st evt = st /\ forward sink st evt = [write_of sink evt].
Proof.
  intros Hi Hp. unfold update_state, forward.
  destruct (is_press_false_cases evt Hp) as [Hm|[Hm Hv]]; rewrite Hm.
  - now rewrite Hi.
  - rewrite Hv, Z.eqb_refl. rewrite clear_scrolling_id by exact Hi.
    rewrite Hi. split; [reflexivity|]. unfold write_of. now rewrite Hv.
Qed.

(** X3. In the idle state a burst without middle-button presses is passed
    through whole: every event is written as it came, in the order it
    came, and the state stays idle. *)
Theorem idle_burst_passthrough (sink st : Z) (evts : list input_event) :
  Idle st ->
  Forall (fun evt => is_press evt = false) evts ->
  handle_events sink st evts = (st, List.map (write_of sink) evts).
Proof.
  intros Hi Hall. induction Hall as [|evt evts Hp _ IH]; [reflexivity|].
  destruct (handle_event_idle sink st evt Hi Hp) as [Hu Hf].
  now rewrite handle_events_cons, Hu, Hf, IH.
Qed.

Lemma idle_burst_passthrough_witness :
  handle_events 7 MOUSE_STATE_NONE
    [ev_rel_y 2; InputEvent EV_KEY 272 1; ev_release]
  = (MOUSE_STATE_NONE,
     [EWrite 7 EV_REL REL_Y 2; EWrite 7 EV_KEY 272 1;
      EWrite 7 EV_KEY BTN_MIDDLE 0]).
Proof.
  apply (idle_burst_passthrough 7 MOUSE_STATE_NONE
           [ev_rel_y 2; InputEvent EV_KEY 272 1; ev_release]).
  - reflexivity.
  - repeat constructor.
Defined.

(** X4. A whole scroll gesture: from the idle state, a press, any number
    of vertical motions and a release write one wheel event per motion,
    of value [-2 * v] in signed 32-bit arithmetic, followed by the release,
    and put the state word back as it was.  When every motion lies in
    -2^30 < v <= 2^30 the values written are the integers [-2 * v]. *)
Theorem scroll_gesture (sink st : Z) (vs : list Z) :
  Idle st ->
  handle_events sink st (ev_press :: List.map ev_rel_y vs ++ [ev_release])
  = (st,
     List.map (fun v => EWrite sink EV_REL REL_WHEEL_HI_RES (s32 (-2 * v))) vs
     ++ [EWrite sink EV_KEY BTN_MIDDLE 0])
  /\ (Forall (fun v => - 2 ^ 30 < v <= 2 ^ 30) vs ->
      handle_events sink st (ev_press :: List.map ev_rel_y vs ++ [ev_release])
      = (st,
         List.map (fun v => EWrite sink EV_REL REL_WHEEL_HI_RES (-2 * v)) vs
         ++ [EWrite sink EV_KEY BTN_MIDDLE 0])).
Proof.
  intros Hi.
  assert (handle_events sink st
            (ev_press :: List.map ev_rel_y vs ++ [ev_release])
          = (st,
             List.map (fun v => EWrite sink EV_REL REL_WHEEL_HI_RES
                                  (wheel_value v)) vs
             ++ [EWrite sink EV_KEY BTN_MIDDLE 0])) as Hrun.
  { rewrite handle_events_cons.
    change (update_state st ev_press) with (Z.lor st MOUSE_STATE_SCROLLING).
    rewrite handle_events_split.
    rewrite (scrolling_burst_writes sink (Z.lor st MOUSE_STATE_SCROLLING)
               (List.map ev_rel_y vs)).
    - cbn [fst snd handle_events]. rewrite handle_event_release.
      rewrite set_clear_scrolling_id by exact Hi. cbn [fst snd].
      unfold forward. rewrite scrolling_set.
      change ((ev_type ev_press =? EV_REL) && (ev_code ev_press =? REL_Y))
        with false. cbn [app]. f_equal. f_equal.
      induction vs as [|v vs IH]; [reflexivity|]. cbn. now rewrite IH.
    - apply scrolling_set.
    - apply Forall_forall. intros evt Hin.
      apply list_elem_of_In, List.in_map_iff in Hin as (v & <- & _).
      reflexivity. }
  rewrite Hrun. clear Hrun. split.
  - f_equal. f_equal. apply List.map_ext. intros v.
    now rewrite wheel_value_spec.
  - intros Hrange. f_equal. f_equal.
    induction Hrange as [|v vs Hv _ IH]; [reflexivity|].
    cbn [List.map]. now rewrite IH, (wheel_value_exact v Hv).
Qed.

Lemma scroll_gesture_witness :
  handle_events 7 MOUSE_STATE_NONE
    (ev_press :: List.map ev_rel_y [1; -1; 4] ++ [ev_release])
  = (MOUSE_STATE_NONE,
     [EWrite 7 EV_REL REL_WHEEL_HI_RES (-2);
      EWrite 7 EV_REL REL_WHEEL_HI_RES 2;
      EWrite 7 EV_REL REL_WHEEL_HI_RES (-8);
      EWrite 7 EV_KEY BTN_MIDDLE 0]).
Proof.
  refine (proj2 (scroll_gesture 7 MOUSE_STATE_NONE [1; -1; 4] _) _).
  - reflexivity.
  - repeat constructor; lia.
Defined.

Lemma last_button_app (acc : option Z) (a b : list input_event) :
  last_button acc (a ++ b) = last_button (last_button acc a) b.
Proof.
  revert acc. induction a as [|evt a IH]; intros acc; [reflexivity|].
  cbn. apply IH.
Qed.

(** X5. After any burst the scrolling bit is what the last middle-button
    event of the burst says, set for a nonzero value and clear for zero;
    a burst without middle-button events leaves it as it was. *)
Theorem state_follows_last_button (sink st : Z) (evts : list input_event) :
  scrolling (fst (handle_events sink st evts))
  = match last_button None evts with
    | Some v => negb (v =? 0)
    | None => scrolling st
    end.
Proof.
  induction evts as [|evt evts IH] using rev_ind; [reflexivity|].
  rewrite handle_events_split, last_button_app. cbn [fst].
  rewrite handle_events_cons. cbn [fst handle_events last_button].
  unfold update_state.
  destruct (is_middle_button evt); [|exact IH].
  destruct (ev_value evt =? 0); cbn [negb].
  - apply scrolling_clear.
  - apply scrolling_set.
Qed.

Lemma update_state_other_bits (st : Z) (evt : input_event) (n : Z) :
  0 <= n -> n <> 2 ->
  Z.testbit (update_state st evt) n = Z.testbit st n.
Proof.
  intros Hn Hne. unfold update_state.
  destruct (is_middle_button evt); [|reflexivity].
  change MOUSE_STATE_SCROLLING with (2 ^ 2).
  destruct (ev_value evt =? 0).
  - rewrite Z.land_spec, Z.lnot_spec, Z.pow2_bits_eqb by lia.
    destruct (Z.eqb_spec 2 n); [lia | apply andb_true_r].
  - rewrite Z.lor_spec, Z.pow2_bits_eqb by lia.
    destruct (Z.eqb_spec 2 n); [lia | apply orb_false_r].
Qed.

(** X6. Processing events changes no bit of the state word other than the
    scrolling bit; in particular no burst of events, whatever it contains,
    marks a mouse dead or brings a dead one back. *)
Theorem events_touch_only_scrolling_bit
    (sink st : Z) (evts : list input_event) :
  (forall n, 0 <= n -> n <> 2 ->
     Z.testbit (fst (handle_events sink st evts)) n = Z.testbit st n)
  /\ dead (fst (handle_events sink st evts)) = dead st.
Proof.
  assert (forall n, 0 <= n -> n <> 2 ->
            Z.testbit (fst (handle_events sink st evts)) n = Z.testbit st n)
    as Hbits.
  { intros n Hn Hne. revert st.
    induction evts as [|evt evts IH]; intros st; [reflexivity|].
    rewrite handle_events_cons. cbn [fst].
    now rewrite IH, update_state_other_bits. }
  split; [exact Hbits|]. rewrite !dead_testbit. now apply Hbits.
Qed.

Lemma forward_shape (sink st : Z) (evt : input_event) :
  Forall (fun e => is_write_to sink e = true) (forward sink st evt)
  /\ (length (forward sink st evt) <= 1)%nat.
Proof.
  unfold forward.
  destruct (scrolling st); [destruct (_ && _)|]; cbn;
    (split; [repeat constructor; apply Z.eqb_refl | lia]).
Qed.

(** X7. Whatever the events and the state, a burst makes writes to the
    sink it was given and to no other, performs no other effect, and makes
    at most one write per event read. *)
Theorem burst_writes_own_sink (sink st : Z) (evts : list input_event) :
  Forall (fun e => is_write_to sink e = true)
         (snd (handle_events sink st evts))
  /\ (length (snd (handle_events sink st evts)) <= length evts)%nat.
Proof.
  revert st. induction evts as [|evt evts IH]; intros st.
  - cbn. split; [constructor | lia].
  - rewrite handle_events_cons. cbn [snd].
    destruct (forward_shape sink (update_state st evt) evt) as [Hf Hl].
    destruct (IH (update_state st evt)) as [Hf' Hl'].
    split; [now apply Forall_app | rewrite length_app; cbn [length]; lia].
Qed.

(** ** The read loop of one mouse *)

Lemma read_burst_prefix
    (pre post : list (Z * input_event)) (s : Z) (e : input_event)
    (sink st : Z) :
  Forall (fun x => 0 <= fst x) pre -> s < 0 ->
  read_burst (pre ++ (s, e) :: post) sink st
  = Done (s, fst (handle_events sink st (List.map snd pre)),
          snd (handle_events sink st (List.map snd pre))).
Proof.
  intros Hpre Hs. revert st.
  induction Hpre as [|[s0 e0] pre Hs0 _ IH]; intros st.
  - cbn. apply Z.ltb_lt in Hs. now rewrite Hs.
  - cbn [app read_burst List.map]. cbn [fst] in Hs0.
    apply Z.ltb_ge in Hs0. rewrite Hs0. unfold handle_event.
    rewrite IH, handle_events_cons. reflexivity.
Qed.

(** X8. The read loop handles exactly the events returned before the first
    negative status, in order and as [handle_events] does, and hands that
    status back; what the device would have returned afterwards has no
    influence on the state or on the writes. *)
Theorem read_burst_until_failure
    (pre post : list (Z * input_event)) (s : Z) (e : input_event)
    (sink st : Z) :
  Forall (fun x => 0 <= fst x) pre -> s < 0 ->
  read_burst (pre ++ (s, e) :: post) sink st
  = Done (s, fst (handle_events sink st (List.map snd pre)),
          snd (handle_events sink st (List.map snd pre))).
Proof.
  intros Hpre Hs. revert st.
  induction Hpre as [|[s0 e0] pre Hs0 _ IH]; intros st.
  - cbn. apply Z.ltb_lt in Hs. now rewrite Hs.
  - cbn [app read_burst List.map]. cbn [fst] in Hs0.
    apply Z.ltb_ge in Hs0. rewrite Hs0. unfold handle_event.
    rewrite IH, handle_events_cons. reflexivity.
Qed.

Lemma read_burst_until_failure_witness :
  read_burst ([(0, ev_press); (1, ev_rel_y 3)]
              ++ (- EAGAIN, InputEvent 0 0 0) :: [(0, ev_release)]) 7 0
  = Done (- EAGAIN,
          fst (handle_events 7 0 (List.map snd [(0, ev_press); (1, ev_rel_y 3)])),
          snd (handle_events 7 0 (List.map snd [(0, ev_press); (1, ev_rel_y 3)]))).
Proof.
  apply (read_burst_until_failure [(0, ev_press); (1, ev_rel_y 3)]
           [(0, ev_release)] (- EAGAIN) (InputEvent 0 0 0) 7 0).
  - repeat constructor; simpl; lia.
  - reflexivity.
Defined.

Lemma read_burst_resume (pre : list (Z * input_event)) :
  forall (script : list (Z * input_event)) (sink st : Z),
    Forall (fun x => 0 <= fst x) pre ->
    read_burst (pre ++ script) sink st
    = '(s, st2, out2) ←
        read_burst script sink
          (fst (handle_events sink st (List.map snd pre)));
      Done (s, st2, snd (handle_events sink st (List.map snd pre)) ++ out2).
Proof.
  induction pre as [|[s0 e0] pre IH]; intros script sink st Hpre.
  - cbn. now destruct (read_burst script sink st) as [[[s st2] out2]| |].
  - apply Forall_cons in Hpre as [Hs0 Hpre]. cbn [fst] in Hs0.
    apply Z.ltb_ge in Hs0.
    cbn [app read_burst List.map snd]. rewrite Hs0. unfold handle_event.
    rewrite IH by exact Hpre. rewrite handle_events_cons. cbn [fst snd].
    destruct (read_burst script sink _) as [[[s st2] out2]| |]; cbn;
      [now rewrite <- app_assoc | reflexivity | reflexivity].
Qed.

(** X1. The gesture state is carried from one round to the next through
    the node.  For a registry of one mouse: when its burst in one round is
    cut by [-EAGAIN] after the events [pre1], polling returns with the
    state word those events lead to stored in the node, and polling again
    in the next round, whatever the device then returns, gives the very
    result (heap, [g.mice], trace, or failure) of a single round in which
    the device had delivered [pre1] and the later reads in one burst. *)
Theorem burst_resumes_next_round
    (reads1 reads2 : Z -> list (Z * input_event)) (w : World) (v : view)
    (pre1 post1 : list (Z * input_event)) (e1 : input_event) (fuel : nat) :
  registry w [v] ->
  reads1 (v_dev v) = pre1 ++ (- EAGAIN, e1) :: post1 ->
  Forall (fun x => 0 <= fst x) pre1 ->
  (1 < fuel)%nat ->
  exists w1,
    poll_mice fuel reads1 w (mice w) = Done w1 /\
    registry w1
      [with_state v
         (fst (handle_events (v_sink v) (v_state v) (List.map snd pre1)))] /\
    trace w1
    = trace w ++ snd (handle_events (v_sink v) (v_state v)
                        (List.map snd pre1)) /\
    poll_mice fuel reads2 w1 (mice w1)
    = poll_mice fuel (fun d => pre1 ++ reads2 d) w (mice w).
Proof.
  intros Hreg Hreads Hpre Hf.
  destruct fuel as [|[|fuel]]; try lia.
  apply is_list_cons_inv in Hreg as (Hp & Hnz & r & Hr & Hv & Hnil).
  cbn [is_list] in Hnil. rewrite <- Hv in *.
  cbn [v_dev v_sink v_state view_of] in *.
  apply Z.eqb_neq in Hnz as Hnzb.
  set (st1 := fst (handle_events (dev_uinput r) (state r)
                     (List.map snd pre1))).
  set (out1 := snd (handle_events (dev_uinput r) (state r)
                      (List.map snd pre1))).
  assert (poll_mice (S (S fuel)) reads1 w (mice w)
          = Done (MkWorld (<[mice w := set_state r st1]> (heap w)) (mice w)
                          (trace w ++ out1))) as Hrun1.
  { cbn [poll_mice]. rewrite Hnzb, Hr, Hreads.
    rewrite read_burst_prefix by (easy || reflexivity).
    cbn [mbind result_bind bind]. unfold after_burst.
    rewrite Z.eqb_refl, Hnil. cbn [Z.eqb]. now rewrite app_nil_r. }
  eexists. split; [exact Hrun1|]. cbn [heap mice trace].
  split; [|split; [reflexivity|]].
  - unfold registry. cbn [heap mice is_list]. split; [exact Hnz|].
    exists (set_state r st1). rewrite lookup_insert_eq.
    split; [reflexivity|]. split; [reflexivity | exact Hnil].
  - cbn [poll_mice heap mice trace]. rewrite Hnzb, Hr, lookup_insert_eq.
    cbn [dev dev_uinput state next set_state].
    rewrite read_burst_resume by exact Hpre. fold st1 out1.
    destruct (read_burst (reads2 (dev r)) (dev_uinput r) st1)
      as [[[s st2] out2]| |]; [|reflexivity|reflexivity].
    cbn [mbind result_bind bind].
    destruct (after_burst s st2) as [st' log].
    rewrite Hnil. cbn [Z.eqb heap mice trace].
    rewrite insert_insert_eq. now rewrite <- !app_assoc.
Qed.

Lemma burst_resumes_next_round_witness :
  exists w1,
    poll_mice 2 (fun _ => [(0, ev_press); (- EAGAIN, InputEvent 0 0 0)])
      w_one (mice w_one) = Done w1 /\
    registry w1
      [with_state (MkView 16 3 100 200 0)
         (fst (handle_events 200 0 (List.map snd [(0, ev_press)])))] /\
    trace w1
    = trace w_one ++ snd (handle_events 200 0 (List.map snd [(0, ev_press)])) /\
    poll_mice 2 (fun _ => [(0, ev_rel_y 3); (- EAGAIN, InputEvent 0 0 0)])
      w1 (mice w1)
    = poll_mice 2
        (fun d => [(0, ev_press)]
                  ++ [(0, ev_rel_y 3); (- EAGAIN, InputEvent 0 0 0)])
        w_one (mice w_one).
Proof.
  apply (burst_resumes_next_round
           (fun _ => [(0, ev_press); (- EAGAIN, InputEvent 0 0 0)])
           (fun _ => [(0, ev_rel_y 3); (- EAGAIN, InputEvent 0 0 0)])
           w_one (MkView 16 3 100 200 0) [(0, ev_press)] []
           (InputEvent 0 0 0) 2).
  - apply (chain_sound 3). reflexivity.
  - reflexivity.
  - repeat constructor. simpl. lia.
  - lia.
Defined.


(** ** Path test and registration *)

(** X9. [start_with str substr] holds exactly when [str] is [substr]
    followed by something; in particular every string starts with the
    empty string and nothing shorter than [substr] starts with it. *)
Theorem start_with_iff (str substr : string) :
  start_with str substr = true <-> exists rest, str = (substr ++ rest)%string.
Proof.
  unfold start_with. revert str.
  induction substr as [|a substr IH]; intros str; cbn.
  - split; [intros _; now exists str | now destruct str].
  - destruct str as [|b str]; cbn.
    + split; [discriminate | intros [rest H]; discriminate H].
    + destruct (Ascii.ascii_dec a b) as [->|Hne].
      * rewrite IH. split; intros [rest H]; exists rest.
        -- now rewrite H.
        -- change (String b str = String b (substr ++ rest)%string) in H.
           congruence.
      * split; [discriminate|]. intros [rest H].
        change (String b str = String a (substr ++ rest)%string) in H.
        congruence.
Qed.

Lemma acquire_cases (path : string) (pr : probe) :
  (all_steps_ok (Some path) pr = true ->
     start_with path (DEV_INPUT ++ "/event") = true /\ p_calloc pr <> 0 /\
     exists t, acquire path pr
               = (true, MkMouse (p_open pr) (p_dev pr) (p_uinput pr) 0 0, t))
  /\ (all_steps_ok (Some path) pr = false ->
      start_with path (DEV_INPUT ++ "/event") = false \/ p_calloc pr = 0 \/
      exists r t, acquire path pr = (false, r, t)).
Proof.
  unfold all_steps_ok, acquire.
  destruct (start_with path _); cbn [andb]; [|split; [easy | auto]].
  destruct (Z.eqb_spec (p_calloc pr) 0) as [Hz|Hz]; cbn [andb negb];
    [split; [easy | auto]|].
  destruct (0 <=? p_new_status pr); cbn [andb]; [|split; [easy | eauto 6]].
  destruct (is_mouse pr); cbn [andb]; [|split; [easy | eauto 6]].
  destruct (0 <=? p_uinput_status pr); cbn [andb]; [|split; [easy | eauto 6]].
  destruct (0 <=? p_grab_status pr); split; try easy; eauto 6.
Qed.

Lemma check_register_mouse_cases
    (w : World) (l : list view) (path : option string) (pr : probe)
    (fuel : nat) :
  registry w l ->
  p_calloc pr = 0 \/ heap w !! p_calloc pr = None ->
  (length l < fuel)%nat ->
  exists w' added,
    check_register_mouse fuel path pr w = Done w' /\
    trace w' = trace w ++ added /\
    if all_steps_ok path pr
    then mice w' = p_calloc pr /\ registry w' (new_view pr :: l)
    else heap w' = heap w /\ mice w' = mice w /\ registry w' l.
Proof.
  intros Hreg Hfresh Hf.
  destruct path as [path|];
    [|exists w, []; cbn; rewrite app_nil_r; easy].
  destruct (acquire_cases path pr) as [Hok Hko].
  destruct (all_steps_ok (Some path) pr).
  - destruct (Hok eq_refl) as (Hpath & Hnz & t & Hacq).
    destruct Hfresh as [Hz|Hfresh]; [easy|].
    destruct (check_register_mouse_ok w l path pr _ t fuel Hreg Hpath Hnz
                Hfresh Hacq) as (w' & Hrun & Hm & Hreg' & Htr).
    exists w'. eexists. split; [exact Hrun|]. split; [exact Htr|].
    split; [exact Hm | exact Hreg'].
  - destruct (Hko eq_refl) as [Hpath|[Hz|(r & t & Hacq)]].
    + exists w, []. unfold check_register_mouse. rewrite Hpath. cbn.
      rewrite app_nil_r. easy.
    + exists w, []. unfold check_register_mouse, unregister_mouse.
      destruct (negb _); [cbn; rewrite app_nil_r; easy|].
      rewrite Hz. cbn. rewrite app_nil_r. easy.
    + destruct (start_with path (DEV_INPUT ++ "/event")) eqn:Hpath.
      2:{ exists w, []. unfold check_register_mouse. rewrite Hpath. cbn.
          rewrite app_nil_r. easy. }
      destruct (Z.eq_dec (p_calloc pr) 0) as [Hz|Hnz].
      { exists w, []. unfold check_register_mouse, unregister_mouse.
        rewrite Hpath, Hz. cbn. rewrite app_nil_r. easy. }
      destruct Hfresh as [Hz|Hfresh]; [easy|].
      rewrite (check_register_mouse_failed w l path pr r t fuel) by easy.
      eexists. eexists. split; [reflexivity|]. cbn [heap mice trace].
      split; [reflexivity|]. easy.
Qed.

(** X10. Whatever the path and whatever the outside world answers, a
    registration attempt on a well-formed registry returns, only adds to
    the trace, and leaves a well-formed registry: either the one it found,
    with the heap and [g.mice] untouched, or the one it found with the new
    mouse in front, idle and alive. *)
Theorem registration_keeps_registry
    (w : World) (l : list view) (path : option string) (pr : probe)
    (fuel : nat) :
  registry w l ->
  p_calloc pr = 0 \/ heap w !! p_calloc pr = None ->
  (length l < fuel)%nat ->
  exists w' added,
    check_register_mouse fuel path pr w = Done w' /\
    trace w' = trace w ++ added /\
    ((heap w' = heap w /\ mice w' = mice w /\ registry w' l)
     \/ (mice w' = p_calloc pr /\ registry w' (new_view pr :: l) /\
         scrolling (v_state (new_view pr)) = false /\
         dead_view (new_view pr) = false)).
Proof.
  intros Hreg Hfresh Hf.
  destruct (check_register_mouse_cases w l path pr fuel Hreg Hfresh Hf)
    as (w' & added & Hrun & Htr & Hcase).
  exists w', added. split; [exact Hrun|]. split; [exact Htr|].
  destruct (all_steps_ok path pr); [right | left; exact Hcase].
  destruct Hcase as [Hm Hreg']. easy.
Qed.

Lemma registration_keeps_registry_witness :
  exists w' added,
    check_register_mouse 3 (Some event4) pr_ok w_one = Done w' /\
    trace w' = trace w_one ++ added /\
    ((heap w' = heap w_one /\ mice w' = mice w_one /\
      registry w' [MkView 16 3 100 200 0])
     \/ (mice w' = p_calloc pr_ok /\
         registry w' (new_view pr_ok :: [MkView 16 3 100 200 0]) /\
         scrolling (v_state (new_view pr_ok)) = false /\
         dead_view (new_view pr_ok) = false)).
Proof.
  apply (registration_keeps_registry w_one [MkView 16 3 100 200 0]
           (Some event4) pr_ok 3).
  - apply (chain_sound 3). reflexivity.
  - right. reflexivity.
  - simpl. lia.
Defined.

(** X11. A registration attempt puts the device into the registry exactly
    when every step went through: the path names an event node, the node
    was allocated, the descriptor was built, the device has relative axes
    and a middle button, the sink was created and the grab was taken. *)
Theorem registered_iff_all_steps_ok
    (w : World) (l : list view) (path : option string) (pr : probe)
    (fuel : nat) :
  registry w l ->
  p_calloc pr = 0 \/ heap w !! p_calloc pr = None ->
  (length l < fuel)%nat ->
  exists w',
    check_register_mouse fuel path pr w = Done w' /\
    (registry w' (new_view pr :: l) <-> all_steps_ok path pr = true) /\
    (registry w' l <-> all_steps_ok path pr = false).
Proof.
  intros Hreg Hfresh Hf.
  destruct (check_register_mouse_cases w l path pr fuel Hreg Hfresh Hf)
    as (w' & added & Hrun & Htr & Hcase).
  exists w'. split; [exact Hrun|].
  assert (forall v, registry w' (v :: l) -> registry w' l -> False) as Hexcl.
  { intros v H1 H2. pose proof (is_list_functional _ _ _ _ H1 H2) as E.
    apply (f_equal length) in E. cbn in E. lia. }
  destruct (all_steps_ok path pr).
  - destruct Hcase as [_ Hreg']. split; [easy|].
    split; [intros H; exfalso; eauto | discriminate].
  - destruct Hcase as (_ & _ & Hreg'). split; [|easy].
    split; [intros H; exfalso; eauto | discriminate].
Qed.

Lemma registered_iff_all_steps_ok_witness :
  exists w',
    check_register_mouse 3 (Some event4) pr_busy w_one = Done w' /\
    (registry w' (new_view pr_busy :: [MkView 16 3 100 200 0])
     <-> all_steps_ok (Some event4) pr_busy = true) /\
    (registry w' [MkView 16 3 100 200 0]
     <-> all_steps_ok (Some event4) pr_busy = false).
Proof.
  apply (registered_iff_all_steps_ok w_one [MkView 16 3 100 200 0]
           (Some event4) pr_busy 3).
  - apply (chain_sound 3). reflexivity.
  - right. reflexivity.
  - simpl. lia.
Defined.

(** X12. When the descriptor cannot be built, be it that [open] itself
    failed, the attempt prints the failure with the error number, makes no
    attempt at a sink or a grab whatever the device is, hands the node with
    its null descriptor to [unregister_mouse], which closes the file and
    frees the node, and the heap and [g.mice] end as they were. *)
Theorem descriptor_failure_logged
    (w : World) (l : list view) (path : string) (pr : probe) (fuel : nat) :
  registry w l ->
  start_with path (DEV_INPUT ++ "/event") = true ->
  p_calloc pr <> 0 -> heap w !! p_calloc pr = None ->
  p_new_status pr < 0 ->
  (length l < fuel)%nat ->
  check_register_mouse fuel (Some path) pr w
  = Done (MkWorld (heap w) (mice w)
            (trace w ++
             [EOpen path (p_open pr);
              ENewFromFd (p_open pr) (p_new_status pr);
              EMsg (MsgFailedOpen path (- p_new_status pr));
              EUngrab 0; EFreeDev 0; EClose (p_open pr);
              EFree (p_calloc pr)])).
Proof.
  intros Hreg Hpath Hnz Hfresh Hnew Hf. apply Z.leb_gt in Hnew.
  erewrite check_register_mouse_failed; try eassumption.
  2:{ unfold acquire. rewrite Hnew. reflexivity. }
  reflexivity.
Qed.

Lemma descriptor_failure_logged_witness :
  check_register_mouse 3 (Some event4)
    (MkProbe 32 (-1) (-9) 0 true true 0 0 0 "") w_one
  = Done (MkWorld (heap w_one) (mice w_one)
            (trace w_one ++
             [EOpen event4 (-1); ENewFromFd (-1) (-9);
              EMsg (MsgFailedOpen event4 (- -9));
              EUngrab 0; EFreeDev 0; EClose (-1); EFree 32])).
Proof.
  apply (descriptor_failure_logged w_one [MkView 16 3 100 200 0] event4
           (MkProbe 32 (-1) (-9) 0 true true 0 0 0 "") 3).
  - apply (chain_sound 3). reflexivity.
  - reflexivity.
  - discriminate.
  - reflexivity.
  - simpl. lia.
  - simpl. lia.
Defined.

(** ** Removing a registered mouse *)

(** X13. [unregister_mouse] on a mouse of the registry returns; the
    registry afterwards is the one before without that mouse, the others
    unchanged and in the same order; the mouse has had its grab released,
    its descriptor freed, its file closed and its node freed, and the node
    is no longer in the heap. *)
Theorem unregister_removes_exactly
    (w : World) (l1 : list view) (v : view) (l2 : list view) (fuel : nat) :
  registry w (l1 ++ v :: l2) ->
  (length (l1 ++ v :: l2) < fuel)%nat ->
  exists w',
    unregister_mouse fuel w (v_addr v) = Done w' /\
    registry w' (l1 ++ l2) /\
    chain fuel (heap w') (mice w') = Done (l1 ++ l2) /\
    heap w' !! v_addr v = None /\
    trace w' = trace w ++ release_view v.
Proof.
  intros Hreg Hf. rewrite length_app in Hf. cbn [length] in Hf.
  destruct (unregister_mouse_member w l1 v l2 fuel Hreg ltac:(lia))
    as (w' & Hrun & Hreg' & Htr & Hdom).
  exists w'. split; [exact Hrun|]. split; [exact Hreg'|]. split; [|split].
  - apply chain_is_list; [exact Hreg'|]. rewrite length_app. lia.
  - apply not_elem_of_dom. rewrite Hdom. intros Hin.
    apply elem_of_difference in Hin as [_ Hin]. apply Hin.
    now apply elem_of_singleton.
  - exact Htr.
Qed.

Lemma unregister_removes_exactly_witness :
  exists w',
    unregister_mouse 3 w_two 48 = Done w' /\
    registry w' ([MkView 16 3 100 200 0] ++ []) /\
    chain 3 (heap w') (mice w') = Done ([MkView 16 3 100 200 0] ++ []) /\
    heap w' !! 48 = None /\
    trace w' = trace w_two ++ release_view (MkView 48 5 102 202 0).
Proof.
  apply (unregister_removes_exactly w_two [MkView 16 3 100 200 0]
           (MkView 48 5 102 202 0) [] 3).
  - apply (chain_sound 3). reflexivity.
  - simpl. lia.
Defined.

(** X14. Registering a device and unregistering it again is a round trip
    on the registry: the heap and [g.mice] are back to what they were, and
    the trace has grown by the registration followed by the release of the
    new mouse. *)
Theorem register_unregister_round_trip
    (w : World) (path : string) (pr : probe) (fuel : nat) :
  all_steps_ok (Some path) pr = true ->
  heap w !! p_calloc pr = None ->
  exists w1 w2,
    check_register_mouse fuel (Some path) pr w = Done w1 /\
    mice w1 = p_calloc pr /\
    unregister_mouse fuel w1 (p_calloc pr) = Done w2 /\
    heap w2 = heap w /\ mice w2 = mice w /\
    trace w2 = trace w1 ++ release_view (new_view pr).
Proof.
  intros Hok Hfresh.
  destruct (acquire_cases path pr) as [Hcase _].
  destruct (Hcase Hok) as (Hpath & Hnz & t & Hacq).
  apply Z.eqb_neq in Hnz as Hnzb.
  unfold check_register_mouse. rewrite Hpath, Hnzb, Hacq. cbn [negb].
  eexists. eexists. split; [reflexivity|]. cbn [mice].
  split; [reflexivity|].
  unfold unregister_mouse, unlink. cbn [heap mice trace].
  rewrite Hnzb, Z.eqb_refl, lookup_insert_eq.
  cbn [mbind result_bind bind heap mice trace next set_next].
  rewrite lookup_insert_eq.
  split; [reflexivity|]. cbn [heap mice trace].
  split; [|split; reflexivity].
  rewrite insert_insert_eq. now apply delete_insert_id.
Qed.

Lemma register_unregister_round_trip_witness :
  exists w1 w2,
    check_register_mouse 3 (Some event4) pr_ok w_one = Done w1 /\
    mice w1 = p_calloc pr_ok /\
    unregister_mouse 3 w1 (p_calloc pr_ok) = Done w2 /\
    heap w2 = heap w_one /\ mice w2 = mice w_one /\
    trace w2 = trace w1 ++ release_view (new_view pr_ok).
Proof.
  apply (register_unregister_round_trip w_one event4 pr_ok 3);
    reflexivity.
Defined.

(** ** The sweep in general *)

(** X15. The sweep of a well-formed registry returns; it keeps exactly the
    mice whose dead bit is clear, unchanged and in their order, releases
    the dead ones in list order, and leaves none of their nodes in the
    heap. *)
Theorem sweep_keeps_alive_releases_dead
    (w : World) (l : list view) (fuel : nat) :
  registry w l -> (length l < fuel)%nat ->
  exists w',
    unregister_dead_mice fuel w = Done w' /\
    registry w' (List.filter alive_view l) /\
    trace w' = trace w ++ released l /\
    forall v, v ∈ l -> dead_view v = true -> heap w' !! v_addr v = None.
Proof.
  intros Hreg Hf.
  destruct (unregister_dead_mice_spec w l fuel Hreg Hf)
    as (w' & Hrun & Hreg' & Htr & Hdom).
  exists w'. split; [exact Hrun|]. split; [exact Hreg'|].
  split; [exact Htr|]. intros v Hv Hd.
  apply not_elem_of_dom. rewrite Hdom. intros Hin.
  apply elem_of_difference in Hin as [_ Hin]. apply Hin.
  apply elem_of_list_to_set, list_elem_of_fmap. exists v.
  split; [reflexivity|].
  apply list_elem_of_In, List.filter_In. split; [|exact Hd].
  now apply list_elem_of_In.
Qed.

Lemma sweep_keeps_alive_releases_dead_witness :
  exists w',
    unregister_dead_mice 3
      (MkWorld {[ 16 := MkMouse 3 100 200 0 48; 48 := MkMouse 5 102 202 1 0 ]}
               16 []) = Done w' /\
    registry w'
      (List.filter alive_view
         [MkView 16 3 100 200 0; MkView 48 5 102 202 1]) /\
    trace w' = [] ++ released [MkView 16 3 100 200 0; MkView 48 5 102 202 1] /\
    forall v, v ∈ [MkView 16 3 100 200 0; MkView 48 5 102 202 1] ->
              dead_view v = true -> heap w' !! v_addr v = None.
Proof.
  apply (sweep_keeps_alive_releases_dead
           (MkWorld {[ 16 := MkMouse 3 100 200 0 48;
                       48 := MkMouse 5 102 202 1 0 ]} 16 [])
           [MkView 16 3 100 200 0; MkView 48 5 102 202 1] 3).
  - apply (chain_sound 3). reflexivity.
  - simpl. lia.
Defined.

Lemma sweep_all_alive (inner : nat) (rest : list view) :
  forall (w : World) (p : Z) (fuel : nat),
    is_list (heap w) p rest ->
    Forall (fun v => dead_view v = false) rest ->
    (length rest < fuel)%nat ->
    sweep inner fuel w p = Done w.
Proof.
  induction rest as [|v rest IH]; intros w p [|fuel] Hl Hall Hf;
    simpl in Hf; try lia.
  - cbn in *. now rewrite Hl.
  - apply is_list_cons_inv in Hl as (Hp & Hnz & r & Hr & Hv & Hl).
    apply Forall_cons in Hall as [Hd Hall].
    cbn [sweep]. apply Z.eqb_neq in Hnz. rewrite Hnz, Hr.
    rewrite (view_of_state _ _ _ Hv). unfold dead_view in Hd. rewrite Hd.
    cbn. apply IH; [exact Hl | exact Hall | lia].
Qed.

(** X16. A sweep over a registry without dead mice changes nothing: the
    heap, [g.mice] and the trace are what they were. *)
Theorem sweep_without_dead_is_noop (w : World) (l : list view) (fuel : nat) :
  registry w l ->
  Forall (fun v => dead_view v = false) l ->
  (length l < fuel)%nat ->
  unregister_dead_mice fuel w = Done w.
Proof.
  intros Hreg Hall Hf. unfold unregister_dead_mice.
  now apply (sweep_all_alive fuel l).
Qed.

Lemma sweep_without_dead_is_noop_witness :
  unregister_dead_mice 3 w_two = Done w_two.
Proof.
  apply (sweep_without_dead_is_noop w_two
           [MkView 16 3 100 200 0; MkView 48 5 102 202 0] 3).
  - apply (chain_sound 3). reflexivity.
  - repeat constructor.
  - simpl. lia.
Defined.

Lemma filter_alive_all_alive (l : list view) :
  Forall (fun v => dead_view v = false) (List.filter alive_view l).
Proof.
  apply Forall_forall. intros v Hv.
  apply list_elem_of_In, List.filter_In in Hv as [_ Hv].
  unfold alive_view in Hv. unfold dead_view.
  now destruct (dead (v_state v)).
Qed.

Lemma filter_length_le {A} (p : A -> bool) (l : list A) :
  (length (List.filter p l) <= length l)%nat.
Proof.
  induction l as [|x l IH]; [reflexivity|]. cbn.
  destruct (p x); cbn; lia.
Qed.

(** X17. Sweeping is idempotent: a second sweep right after a first one
    finds nothing to release and leaves the world as the first one left
    it. *)
Theorem sweep_idempotent (w : World) (l : list view) (fuel : nat) :
  registry w l -> (length l < fuel)%nat ->
  exists w',
    unregister_dead_mice fuel w = Done w' /\
    unregister_dead_mice fuel w' = Done w'.
Proof.
  intros Hreg Hf.
  destruct (unregister_dead_mice_spec w l fuel Hreg Hf)
    as (w' & Hrun & Hreg' & _).
  exists w'. split; [exact Hrun|].
  unfold unregister_dead_mice.
  apply (sweep_all_alive fuel (List.filter alive_view l)).
  - exact Hreg'.
  - apply filter_alive_all_alive.
  - pose proof (filter_length_le alive_view l). lia.
Qed.

Lemma sweep_idempotent_witness :
  exists w',
    unregister_dead_mice 3
      (MkWorld {[ 16 := MkMouse 3 100 200 1 48; 48 := MkMouse 5 102 202 0 0 ]}
               16 []) = Done w' /\
    unregister_dead_mice 3 w' = Done w'.
Proof.
  apply (sweep_idempotent
           (MkWorld {[ 16 := MkMouse 3 100 200 1 48;
                       48 := MkMouse 5 102 202 0 0 ]} 16 [])
           [MkView 16 3 100 200 1; MkView 48 5 102 202 0] 3).
  - apply (chain_sound 3). reflexivity.
  - simpl. lia.
Defined.

(** ** Rounds of the main loop *)

Lemma set_state_same (r : LUMouse) : set_state r (state r) = r.
Proof. now destruct r. Qed.

Lemma poll_mice_quiet (reads : Z -> list (Z * input_event))
    (rest : list view) :
  forall (w : World) (p : Z) (fuel : nat),
    is_list (heap w) p rest ->
    Forall (quiet reads) rest ->
    (length rest < fuel)%nat ->
    poll_mice fuel reads w p = Done w.
Proof.
  induction rest as [|v rest IH]; intros w p [|fuel] Hl Hq Hf;
    simpl in Hf; try lia.
  - cbn in *. now rewrite Hl.
  - apply is_list_cons_inv in Hl as (Hp & Hnz & r & Hr & Hv & Hl).
    apply Forall_cons in Hq as [(e & tl & Hrd) Hq].
    rewrite <- Hv in Hrd. cbn [v_dev view_of] in Hrd.
    cbn [poll_mice]. apply Z.eqb_neq in Hnz. rewrite Hnz, Hr, Hrd.
    cbn [read_burst]. change (- EAGAIN <? 0) with true.
    cbn [mbind result_bind bind]. unfold after_burst.
    rewrite Z.eqb_refl, set_state_same, insert_id by exact Hr.
    cbn [app]. rewrite app_nil_r.
    replace (MkWorld (heap w) (mice w) (trace w)) with w by now destruct w.
    apply IH; [exact Hl | exact Hq | lia].
Qed.

Lemma drain_hotplug_filter (fuel : nat) (devs : list udev_device) :
  forall w : World,
    drain_hotplug fuel devs w
    = drain_hotplug fuel (List.filter is_add devs) w.
Proof.
  induction devs as [|d devs IH]; intros w; [reflexivity|].
  cbn [drain_hotplug List.filter]. unfold is_add at 1.
  destruct (String.eqb (ud_action d) "add") eqn:E.
  - cbn [drain_hotplug]. rewrite E.
    destruct (check_register_mouse fuel (ud_devnode d) (ud_probe d) w);
      cbn; [apply IH | reflexivity | reflexivity].
  - cbn. apply IH.
Qed.

(** X18. The hot-plug loop acts on the notifications whose action is
    "add" and on no other: removals, changes and binds may be dropped from
    the queue without any difference to the outcome. *)
Theorem hotplug_acts_on_add_only
    (fuel : nat) (devs : list udev_device) (w : World) :
  drain_hotplug fuel devs w
  = drain_hotplug fuel (List.filter is_add devs) w.
Proof.
  revert w. induction devs as [|d devs IH]; intros w; [reflexivity|].
  cbn [drain_hotplug List.filter]. unfold is_add at 1.
  destruct (String.eqb (ud_action d) "add") eqn:E.
  - cbn [drain_hotplug]. rewrite E.
    destruct (check_register_mouse fuel (ud_devnode d) (ud_probe d) w);
      cbn; [apply IH | reflexivity | reflexivity].
  - cbn. apply IH.
Qed.

(** X19. A round of the main loop in which nothing happens changes
    nothing: when no notification is an "add", no registered mouse is dead
    and no descriptor has anything to read, the heap, [g.mice] and the
    trace after the round are what they were before it. *)
Theorem quiet_iteration_is_noop
    (reads : Z -> list (Z * input_event)) (devs : list udev_device)
    (w : World) (l : list view) (fuel : nat) :
  registry w l ->
  Forall (fun d => is_add d = false) devs ->
  Forall (fun v => dead_view v = false) l ->
  Forall (quiet reads) l ->
  (length l < fuel)%nat ->
  loop_iteration fuel devs reads w = Done w.
Proof.
  intros Hreg Hdevs Halive Hq Hf. unfold loop_iteration.
  rewrite drain_hotplug_filter.
  replace (List.filter is_add devs) with (@nil udev_device).
  2:{ clear -Hdevs. induction Hdevs as [|d devs Hd _ IH]; [reflexivity|].
      cbn. now rewrite Hd. }
  cbn. unfold poll_and_sweep.
  rewrite (poll_mice_quiet reads l) by easy. cbn.
  unfold unregister_dead_mice. now apply (sweep_all_alive fuel l).
Qed.

Lemma quiet_iteration_is_noop_witness :
  loop_iteration 3 [MkUdev "remove" (Some event4) pr_ok]
    (fun _ => [(- EAGAIN, InputEvent 0 0 0)]) w_two
  = Done w_two.
Proof.
  apply (quiet_iteration_is_noop (fun _ => [(- EAGAIN, InputEvent 0 0 0)])
           [MkUdev "remove" (Some event4) pr_ok] w_two
           [MkView 16 3 100 200 0; MkView 48 5 102 202 0] 3).
  - apply (chain_sound 3). reflexivity.
  - repeat constructor.
  - repeat constructor.
  - repeat constructor; eexists; eexists; reflexivity.
  - simpl. lia.
Defined.

Lemma read_burst_writes script :
  forall sink st0 status st out,
    read_burst script sink st0 = Done (status, st, out) ->
    Forall (fun e => is_write_to sink e = true) out.
Proof.
  induction script as [|[s evt] rest IH]; intros sink st0 status st out;
    cbn [read_burst]; [easy|].
  destruct (s <? 0).
  - intros [= <- <- <-]. constructor.
  - unfold handle_event.
    destruct (read_burst rest sink (update_state st0 evt))
      as [[[s' st'] out']| |] eqn:E; cbn; try easy.
    intros [= <- <- <-]. apply Forall_app. split.
    + apply forward_shape.
    + eapply IH. exact E.
Qed.

Lemma polled_own_effects reads v o :
  polled reads v = Done o ->
  polled_view o = with_state v (v_state (polled_view o)) /\
  Forall (fun e => own_effect v (polled_status o) e = true)
         (polled_effects o).
Proof.
  intros H. apply polled_inv in H as (status & st & out & Hb & ->).
  apply read_burst_writes in Hb.
  unfold polled_view, polled_status, polled_effects. cbn [fst snd].
  split; [reflexivity|]. apply Forall_app. split.
  - eapply Forall_impl; [exact Hb|]. intros [] He; try discriminate He.
    exact He.
  - unfold after_burst. destruct (status =? - EAGAIN); cbn [snd].
    + constructor.
    + repeat constructor. cbn. apply Z.eqb_refl.
Qed.

(** X20. Polling serves the mice one after the other in registry order,
    each burst drained before the next mouse is touched: the trace grows
    by the effects of the first mouse, then those of the second, and so
    on.  The registry keeps its mice, their order, their files,
    descriptors and sinks; only state words change.  What a mouse adds to
    the trace are writes to its own sink and, if its read failed, the
    report of that failure: no event of one mouse reaches the sink of
    another. *)
Theorem polling_in_order_own_sink
    (reads : Z -> list (Z * input_event)) (w : World) (l : list view)
    (outs : list (Z * view * list effect)) (fuel : nat) :
  registry w l ->
  Forall2 (fun v o => polled reads v = Done o) l outs ->
  (length l < fuel)%nat ->
  exists w1,
    poll_mice fuel reads w (mice w) = Done w1 /\
    registry w1 (List.map polled_view outs) /\
    trace w1 = trace w ++ concat (List.map polled_effects outs) /\
    Forall2 (fun v o =>
               polled_view o = with_state v (v_state (polled_view o)) /\
               Forall (fun e => own_effect v (polled_status o) e = true)
                      (polled_effects o))
            l outs.
Proof.
  intros Hreg Hout Hf.
  destruct (poll_mice_spec reads l outs w (mice w) fuel Hreg Hout Hf)
    as (w1 & Hrun & Hl1 & Hm1 & Htr1 & _).
  exists w1. split; [exact Hrun|]. split.
  { unfold registry. now rewrite Hm1. }
  split; [exact Htr1|].
  eapply Forall2_impl; [exact Hout|]. intros v o Hp.
  now apply (polled_own_effects reads).
Qed.

Lemma polling_in_order_own_sink_witness :
  exists w1,
    poll_mice 3 reads_gone w_two (mice w_two) = Done w1 /\
    registry w1 [MkView 16 3 100 200 5; MkView 48 5 102 202 0] /\
    trace w1 = [EMsg (MsgReadFailed (-19))].
Proof.
  destruct (polling_in_order_own_sink reads_gone w_two
              [MkView 16 3 100 200 0; MkView 48 5 102 202 0]
              [(-19, MkView 16 3 100 200 5, [EMsg (MsgReadFailed (-19))]);
               (- EAGAIN, MkView 48 5 102 202 0, [])] 3)
    as (w1 & Hrun & Hreg & Htr & _).
  - apply (chain_sound 3). reflexivity.
  - repeat constructor.
  - simpl. lia.
  - exists w1. split; [exact Hrun|]. split; [exact Hreg | exact Htr].
Defined.

(** X21. After a round of polling and sweeping no registered mouse is
    dead: the mice left are those the round found alive and readable, in
    their old order, each with its own file, descriptor and sink. *)
Theorem round_leaves_only_alive
    (reads : Z -> list (Z * input_event)) (w : World) (l : list view)
    (outs : list (Z * view * list effect)) (fuel : nat) :
  registry w l ->
  Forall2 (fun v o => polled reads v = Done o) l outs ->
  (length l < fuel)%nat ->
  exists w' l',
    poll_and_sweep fuel reads w = Done w' /\
    registry w' l' /\
    Forall (fun v => dead_view v = false) l' /\
    l' = List.filter alive_view (List.map polled_view outs) /\
    (length l' <= length l)%nat.
Proof.
  intros Hreg Hout Hf.
  destruct (poll_mice_spec reads l outs w (mice w) fuel Hreg Hout Hf)
    as (w1 & Hrun1 & Hl1 & Hm1 & _).
  assert (registry w1 (List.map polled_view outs)) as Hreg1.
  { unfold registry. now rewrite Hm1. }
  pose proof (Forall2_length _ _ _ Hout) as Hlen.
  destruct (unregister_dead_mice_spec w1 _ fuel Hreg1)
    as (w' & Hrun2 & Hreg2 & _); [rewrite length_map; lia|].
  exists w', (List.filter alive_view (List.map polled_view outs)).
  split; [unfold poll_and_sweep; rewrite Hrun1; exact Hrun2|].
  split; [exact Hreg2|]. split; [apply filter_alive_all_alive|].
  split; [reflexivity|].
  pose proof (filter_length_le alive_view (List.map polled_view outs)) as H.
  rewrite length_map in H. lia.
Qed.

Lemma round_leaves_only_alive_witness :
  exists w' l',
    poll_and_sweep 3 reads_gone w_two = Done w' /\
    registry w' l' /\
    Forall (fun v => dead_view v = false) l' /\
    l' = [MkView 48 5 102 202 0] /\
    (length l' <= 2)%nat.
Proof.
  apply (round_leaves_only_alive reads_gone w_two
           [MkView 16 3 100 200 0; MkView 48 5 102 202 0]
           [(-19, MkView 16 3 100 200 5, [EMsg (MsgReadFailed (-19))]);
            (- EAGAIN, MkView 48 5 102 202 0, [])] 3).
  - apply (chain_sound 3). reflexivity.
  - repeat constructor.
  - simpl. lia.
Defined.

(** ** Runs of registration attempts *)

Lemma drain_hotplug_register_all (fuel : nat) (devs : list udev_device) :
  forall w : World,
    drain_hotplug fuel devs w
    = register_all fuel (hotplug_attempts devs) w.
Proof.
  unfold hotplug_attempts.
  induction devs as [|d devs IH]; intros w; [reflexivity|].
  cbn [drain_hotplug List.filter]. unfold is_add at 1.
  destruct (String.eqb (ud_action d) "add").
  - cbn [List.map register_all].
    destruct (check_register_mouse fuel (ud_devnode d) (ud_probe d) w);
      cbn; [apply IH | reflexivity | reflexivity].
  - cbn. apply IH.
Qed.

Lemma scan_directory_register_all (fuel : nat)
    (entries : list (string * probe)) :
  forall w : World,
    scan_directory fuel entries w
    = register_all fuel (scan_attempts entries) w.
Proof.
  unfold scan_attempts.
  induction entries as [|[d_name pr] entries IH]; intros w; [reflexivity|].
  cbn [scan_directory List.map register_all fst snd].
  destruct (check_register_mouse fuel (Some (full_path d_name)) pr w);
    cbn; [apply IH | reflexivity | reflexivity].
Qed.

Lemma check_register_mouse_dom
    (w w' : World) (l : list view) (path : option string) (pr : probe)
    (fuel : nat) :
  registry w l ->
  p_calloc pr = 0 \/ heap w !! p_calloc pr = None ->
  (length l < fuel)%nat ->
  check_register_mouse fuel path pr w = Done w' ->
  dom (heap w')
  = if all_steps_ok path pr then {[ p_calloc pr ]} ∪ dom (heap w)
    else dom (heap w).
Proof.
  intros Hreg Hfresh Hf Hrun.
  destruct (check_register_mouse_cases w l path pr fuel Hreg Hfresh Hf)
    as (w'' & added & Hrun' & _ & Hcase).
  rewrite Hrun in Hrun'. injection Hrun' as <-.
  destruct (all_steps_ok path pr) eqn:Hok.
  - destruct path as [path|]; [|discriminate Hok].
    destruct (acquire_cases path pr) as [Hc _].
    destruct (Hc Hok) as (Hpath & Hnz & t & Hacq).
    apply Z.eqb_neq in Hnz. unfold check_register_mouse in Hrun.
    rewrite Hpath, Hnz, Hacq in Hrun. cbn [negb] in Hrun.
    injection Hrun as <-. cbn [heap].
    rewrite insert_insert_eq. apply dom_insert_L.
  - destruct Hcase as (-> & _). reflexivity.
Qed.

Lemma register_all_spec (fuel : nat) (atts : list (option string * probe)) :
  forall (w : World) (l : list view),
    registry w l ->
    allocs_fresh (dom (heap w)) atts ->
    (length l + length atts < fuel)%nat ->
    exists w' added,
      register_all fuel atts w = Done w' /\
      registry w' (registered atts ++ l) /\
      trace w' = trace w ++ added.
Proof.
  unfold registered.
  induction atts as [|[path pr] atts IH]; intros w l Hreg Hfresh Hf.
  - exists w, []. cbn. now rewrite app_nil_r.
  - cbn [allocs_fresh] in Hfresh. destruct Hfresh as [Hnew Hrest].
    cbn [length] in Hf.
    assert (p_calloc pr = 0 \/ heap w !! p_calloc pr = None) as Hnew'.
    { destruct Hnew as [H|H]; [now left | right].
      now apply not_elem_of_dom. }
    destruct (check_register_mouse_cases w l path pr fuel Hreg Hnew'
                ltac:(lia)) as (w1 & added1 & Hrun1 & Htr1 & Hcase).
    pose proof (check_register_mouse_dom w w1 l path pr fuel Hreg Hnew'
                  ltac:(lia) Hrun1) as Hdom.
    cbn [register_all]. rewrite Hrun1. cbn [mbind result_bind bind].
    cbn [List.filter fst snd].
    destruct (all_steps_ok path pr).
    + destruct Hcase as [_ Hreg1]. rewrite <- Hdom in Hrest.
      destruct (IH w1 (new_view pr :: l) Hreg1 Hrest)
        as (w' & added & Hrun & Hreg' & Htr); [cbn [length]; lia|].
      exists w', (added1 ++ added). split; [exact Hrun|]. split.
      * cbn [List.map rev]. rewrite <- app_assoc. exact Hreg'.
      * now rewrite Htr, Htr1, <- app_assoc.
    + destruct Hcase as (_ & _ & Hreg1). rewrite <- Hdom in Hrest.
      destruct (IH w1 l Hreg1 Hrest)
        as (w' & added & Hrun & Hreg' & Htr); [lia|].
      exists w', (added1 ++ added). split; [exact Hrun|].
      split; [exact Hreg'|]. now rewrite Htr, Htr1, <- app_assoc.
Qed.

(** X22. The hot-plug loop, given an allocator that returns null or an
    address not in use, returns and only ever adds to the registry: the
    mice that were registered stay, unchanged and in their order, behind
    the newcomers, which are the "add" notifications on which every step
    went through, the latest in front. *)
Theorem hotplug_only_adds
    (fuel : nat) (devs : list udev_device) (w : World) (l : list view) :
  registry w l ->
  allocs_fresh (dom (heap w)) (hotplug_attempts devs) ->
  (length l + length devs < fuel)%nat ->
  exists w' added,
    drain_hotplug fuel devs w = Done w' /\
    registry w' (registered (hotplug_attempts devs) ++ l) /\
    trace w' = trace w ++ added.
Proof.
  intros Hreg Hfresh Hf. rewrite drain_hotplug_register_all.
  apply register_all_spec; [exact Hreg | exact Hfresh |].
  unfold hotplug_attempts. rewrite length_map.
  pose proof (filter_length_le is_add devs). lia.
Qed.

Lemma hotplug_only_adds_witness :
  exists w' added,
    drain_hotplug 5
      [MkUdev "add" (Some event4) pr_ok;
       MkUdev "remove" (Some event4) pr_ok;
       MkUdev "add" (Some event4)
         (MkProbe 48 4 0 101 false true 0 201 0 "k")] w_one = Done w' /\
    registry w' ([MkView 32 4 101 201 0] ++ [MkView 16 3 100 200 0]) /\
    trace w' = trace w_one ++ added.
Proof.
  apply (hotplug_only_adds 5
           [MkUdev "add" (Some event4) pr_ok;
            MkUdev "remove" (Some event4) pr_ok;
            MkUdev "add" (Some event4)
              (MkProbe 48 4 0 101 false true 0 201 0 "k")] w_one
           [MkView 16 3 100 200 0]).
  - apply (chain_sound 3). reflexivity.
  - cbn. repeat split; right; apply (bool_decide_unpack _); vm_compute;
      exact I.
  - simpl. lia.
Defined.

(** ** The initial scan *)

Lemma prefix_substring (p : string) :
  forall (n : nat) (s : string),
    (String.length p <= n)%nat ->
    String.prefix p (String.substring 0 n s) = String.prefix p s.
Proof.
  induction p as [|a p IH]; intros n s Hn.
  - now destruct (String.substring 0 n s), s.
  - destruct n as [|n]; [cbn in Hn; lia|].
    destruct s as [|b s]; [reflexivity|].
    cbn [String.substring String.prefix].
    destruct (Ascii.ascii_dec a b); [|reflexivity].
    apply IH. cbn in Hn. lia.
Qed.

Lemma prefix_append_same (a p s : string) :
  String.prefix (a ++ p)%string (a ++ s)%string = String.prefix p s.
Proof.
  induction a as [|c a IH]; [reflexivity|].
  change (String.prefix (String c (a ++ p)%string) (String c (a ++ s)%string)
          = String.prefix p s).
  cbn [String.prefix]. destruct (Ascii.ascii_dec c c); [exact IH | easy].
Qed.

Lemma full_path_event (d_name : string) :
  start_with (full_path d_name) (DEV_INPUT ++ "/event")
  = start_with d_name "event".
Proof.
  unfold start_with, full_path.
  rewrite prefix_substring by (vm_compute; lia).
  change (DEV_INPUT ++ "/event")%string with ("/dev/input/" ++ "event")%string.
  change (DEV_INPUT ++ "/" ++ d_name)%string
    with ("/dev/input/" ++ d_name)%string.
  apply prefix_append_same.
Qed.

(** X23. The initial scan probes the entries of /dev/input whose name
    starts with "event" and no others: a directory holding only other
    entries (".", "..", "mice", "mouse0", "js0", "by-id") is scanned
    without a single file being opened and leaves the world as it was. *)
Theorem scan_skips_other_entries
    (fuel : nat) (entries : list (string * probe)) (w : World) :
  Forall (fun e => start_with (fst e) "event" = false) entries ->
  scan_directory fuel entries w = Done w.
Proof.
  induction 1 as [|[d_name pr] entries Hn _ IH]; [reflexivity|].
  cbn [scan_directory]. unfold check_register_mouse.
  cbn [fst] in Hn. rewrite full_path_event, Hn. cbn. exact IH.
Qed.

Lemma scan_skips_other_entries_witness :
  scan_directory 1
    [(".", pr_ok); ("..", pr_ok); ("mice", pr_ok); ("mouse0", pr_ok);
     ("by-id", pr_ok)] w_one
  = Done w_one.
Proof.
  apply (scan_skips_other_entries 1
           [(".", pr_ok); ("..", pr_ok); ("mice", pr_ok); ("mouse0", pr_ok);
            ("by-id", pr_ok)] w_one).
  repeat constructor.
Defined.

(** X24. The initial scan, given an allocator that returns null or an
    address not in use, returns with a well-formed registry holding, in
    front of what was there, exactly the entries on which every step of
    the registration went through, the one read last in front. *)
Theorem scan_registers_eligible
    (fuel : nat) (entries : list (string * probe)) (w : World)
    (l : list view) :
  registry w l ->
  allocs_fresh (dom (heap w)) (scan_attempts entries) ->
  (length l + length entries < fuel)%nat ->
  exists w' added,
    scan_directory fuel entries w = Done w' /\
    registry w' (registered (scan_attempts entries) ++ l) /\
    trace w' = trace w ++ added.
Proof.
  intros Hreg Hfresh Hf. rewrite scan_directory_register_all.
  apply register_all_spec; [exact Hreg | exact Hfresh |].
  unfold scan_attempts. now rewrite length_map.
Qed.

Lemma scan_registers_eligible_witness :
  exists w' added,
    scan_directory 5
      [("event3", MkProbe 16 3 0 100 true true 0 200 0 "a");
       ("mice", pr_ok);
       ("event5", MkProbe 48 5 0 102 true true 0 202 0 "b");
       ("event6", MkProbe 64 6 0 103 false true 0 203 0 "k")]
      (MkWorld ∅ 0 []) = Done w' /\
    registry w' ([MkView 48 5 102 202 0; MkView 16 3 100 200 0] ++ []) /\
    trace w' = [] ++ added.
Proof.
  apply (scan_registers_eligible 5
           [("event3", MkProbe 16 3 0 100 true true 0 200 0 "a");
            ("mice", pr_ok);
            ("event5", MkProbe 48 5 0 102 true true 0 202 0 "b");
            ("event6", MkProbe 64 6 0 103 false true 0 203 0 "k")]
           (MkWorld ∅ 0 []) []).
  - reflexivity.
  - cbn. repeat split; right; apply (bool_decide_unpack _); vm_compute;
      exact I.
  - simpl. lia.
Defined.

(** ** Grabs held along a trace *)

Lemma held_from_app (acc : list Z) (t1 t2 : list effect) :
  held_from acc (t1 ++ t2) = held_from (held_from acc t1) t2.
Proof. unfold held_from. apply fold_left_app. Qed.

Lemma held_from_neutral (t : list effect) :
  forall acc, Forall (fun e => grab_neutral e = true) t ->
              held_from acc t = acc.
Proof.
  induction t as [|e t IH]; intros acc Hn; [reflexivity|].
  apply Forall_cons in Hn as [He Hn].
  change (held_from (held_step acc e) t = acc). rewrite IH by exact Hn.
  destruct e; try discriminate He; reflexivity.
Qed.

Lemma held_from_release (acc : list Z) (v : view) :
  held_from acc (release_view v)
  = List.filter (fun x => negb (x =? v_dev v)) acc.
Proof. reflexivity. Qed.

Lemma acquire_held (path : string) (pr : probe) (b : bool) (r : LUMouse)
    (t : list effect) (acc : list Z) :
  acquire path pr = (b, r, t) ->
  held_from acc t = if b then dev r :: acc else acc.
Proof.
  unfold acquire.
  destruct (0 <=? p_new_status pr); [|now intros [= <- <- <-]].
  destruct (is_mouse pr); [|now intros [= <- <- <-]].
  destruct (0 <=? p_uinput_status pr); [|now intros [= <- <- <-]].
  destruct (0 <=? p_grab_status pr) eqn:Hg; intros [= <- <- <-];
    cbn; now rewrite Hg.
Qed.

Lemma held_filter_subset (acc : list Z) (d x : Z) :
  x ∈ List.filter (fun y => negb (y =? d)) acc -> x ∈ acc /\ x <> d.
Proof.
  intros H. apply list_elem_of_In, List.filter_In in H as [Hin Hne].
  split; [now apply list_elem_of_In|].
  intros ->. now rewrite Z.eqb_refl in Hne.
Qed.

Lemma held_from_released (l : list view) :
  forall acc d,
    d ∈ held_from acc (released l) ->
    d ∈ acc /\ forall v, v ∈ l -> dead_view v = true -> v_dev v <> d.
Proof.
  unfold released. induction l as [|v l IH]; intros acc d Hd.
  - cbn in Hd. split; [exact Hd|]. intros v Hv. inversion Hv.
  - cbn [List.filter] in Hd. destruct (dead_view v) eqn:Hdead.
    + cbn [List.map concat] in Hd.
      rewrite held_from_app, held_from_release in Hd.
      apply IH in Hd as [Hin Hrest].
      apply held_filter_subset in Hin as [Hin Hne].
      split; [exact Hin|]. intros v' Hv' Hd'.
      apply elem_of_cons in Hv' as [->|Hv']; [congruence | now apply Hrest].
    + apply IH in Hd as [Hin Hrest]. split; [exact Hin|].
      intros v' Hv' Hd'.
      apply elem_of_cons in Hv' as [->|Hv']; [congruence | now apply Hrest].
Qed.


(** ** What every step of a run keeps *)

Lemma held_app (t1 t2 : list effect) :
  held (t1 ++ t2) = held_from (held t1) t2.
Proof. apply held_from_app. Qed.

Lemma run_inv_mono (used used' : list Z) (w : World) (l : list view) :
  (forall a, a ∈ used -> a ∈ used') ->
  run_inv used w l -> run_inv used' w l.
Proof.
  intros Hsub (Hreg & Hdom & Hused & Hheld).
  repeat split; try easy. intros a Ha. apply Hsub. now apply Hused.
Qed.

Lemma allocs_distinct_mono (atts : list (option string * probe)) :
  forall used used' : list Z,
    (forall a, a ∈ used -> a ∈ used') ->
    allocs_distinct used' atts -> allocs_distinct used atts.
Proof.
  induction atts as [|[path pr] atts IH]; intros used used' Hsub; [easy|].
  cbn [allocs_distinct]. intros [Hc Hrest]. split.
  - destruct Hc as [Hz|Hn]; [now left | right]. intros Hin. apply Hn.
    now apply Hsub.
  - apply (IH _ (p_calloc pr :: used')); [|exact Hrest].
    intros a Ha. apply elem_of_cons in Ha as [->|Ha]; apply elem_of_cons;
      [now left | right; now apply Hsub].
Qed.

Lemma allocs_distinct_app (a : list (option string * probe)) :
  forall (used : list Z) (b : list (option string * probe)),
    allocs_distinct used (a ++ b) ->
    allocs_distinct used a /\
    allocs_distinct (List.map (fun x => p_calloc (snd x)) a ++ used) b.
Proof.
  induction a as [|[path pr] a IH]; intros used b H; [easy|].
  cbn [app allocs_distinct] in H. destruct H as [Hc H].
  apply IH in H as [Ha Hb]. cbn [allocs_distinct]. split; [easy|].
  eapply allocs_distinct_mono; [|exact Hb].
  intros x Hx. cbn [List.map snd app] in Hx.
  apply elem_of_cons in Hx as [->|Hx].
  - apply elem_of_app. right. apply elem_of_cons. now left.
  - apply elem_of_app in Hx as [Hx|Hx]; apply elem_of_app; [now left|].
    right. apply elem_of_cons. now right.
Qed.

Lemma check_register_mouse_inv
    (used : list Z) (w : World) (l : list view) (path : option string)
    (pr : probe) (fuel : nat) :
  run_inv used w l ->
  p_calloc pr = 0 \/ p_calloc pr ∉ used ->
  (length l < fuel)%nat ->
  exists w' l',
    check_register_mouse fuel path pr w = Done w' /\
    run_inv (p_calloc pr :: used) w' l' /\
    (length l' <= S (length l))%nat.
Proof.
  intros (Hreg & Hdom & Hused & Hheld) Hc Hf.
  assert (run_inv (p_calloc pr :: used) w l) as Hsame.
  { apply (run_inv_mono used); [|easy].
    intros a Ha. apply elem_of_cons. now right. }
  assert (p_calloc pr = 0 \/ heap w !! p_calloc pr = None) as Hfresh.
  { destruct Hc as [Hz|Hn]; [now left | right].
    destruct (heap w !! p_calloc pr) eqn:E; [|reflexivity].
    exfalso. apply Hn, Hused. eauto. }
  destruct path as [path|]; [|exists w, l; cbn; split; [easy | split; [easy | lia]]].
  unfold check_register_mouse.
  destruct (start_with path (DEV_INPUT ++ "/event")) eqn:Hpath; cbn [negb];
    [|exists w, l; split; [easy | split; [easy | lia]]].
  destruct (Z.eqb_spec (p_calloc pr) 0) as [Hz|Hnz].
  { exists w, l. unfold unregister_mouse. rewrite Hz. cbn.
    split; [easy | split; [|lia]]. now rewrite <- Hz. }
  destruct Hfresh as [Hz|Hfresh]; [easy|].
  destruct (acquire path pr) as [[b r] t] eqn:Hacq.
  pose proof (acquire_held path pr b r t (held (trace w)) Hacq) as Hh.
  destruct b; cbn [negb].
  - pose proof (fresh_not_in_registry _ _ _ Hreg Hfresh) as Hout.
    eexists. exists (view_of (p_calloc pr) r :: l).
    split; [reflexivity|]. split; [|cbn [length]; lia].
    split; [|split; [|split]]; cbn [heap mice trace].
    + unfold registry. cbn [heap mice is_list]. split; [exact Hnz|].
      eexists. rewrite lookup_insert_eq. split; [reflexivity|].
      split; [reflexivity|]. cbn [next set_next].
      apply is_list_insert_other; [|exact Hout].
      apply is_list_insert_other; [exact Hreg|exact Hout].
    + rewrite insert_insert_eq, dom_insert_L, Hdom. reflexivity.
    + intros a [x Hx]. apply elem_of_cons.
      destruct (Z.eq_dec a (p_calloc pr)) as [->|Hne]; [now left | right].
      rewrite !lookup_insert_ne in Hx by congruence. apply Hused. eauto.
    + intros d Hd. rewrite !held_app, Hh in Hd.
      cbn in Hd. apply elem_of_cons in Hd as [->|Hd].
      * exists (view_of (p_calloc pr) r). split; [|reflexivity].
        apply elem_of_cons. now left.
      * destruct (Hheld d Hd) as (v & Hv & Hdv). exists v.
        split; [|exact Hdv]. apply elem_of_cons. now right.
  - rewrite (unregister_mouse_absent _ l _ r); cbn [heap mice trace].
    + rewrite delete_insert_id by exact Hfresh.
      eexists. exists l. split; [reflexivity|]. split; [|lia].
      split; [exact Hreg|]. cbn [heap mice trace].
      split; [exact Hdom|]. split.
      * intros a Ha. apply elem_of_cons. right. now apply Hused.
      * intros d Hd. rewrite !held_app, Hh in Hd.
        rewrite release_view_of, held_from_release in Hd.
        apply held_filter_subset in Hd as [Hd _]. now apply Hheld.
    + unfold registry. cbn [heap mice]. apply is_list_insert_other; [easy|].
      now apply (fresh_not_in_registry w).
    + exact Hnz.
    + now apply (fresh_not_in_registry w).
    + apply lookup_insert_eq.
    + exact Hf.
Qed.

Lemma register_all_inv (fuel : nat) (atts : list (option string * probe)) :
  forall (used : list Z) (w : World) (l : list view),
    run_inv used w l ->
    allocs_distinct used atts ->
    (length l + length atts < fuel)%nat ->
    exists w' l',
      register_all fuel atts w = Done w' /\
      run_inv (List.map (fun x => p_calloc (snd x)) atts ++ used) w' l' /\
      (length l' <= length l + length atts)%nat.
Proof.
  induction atts as [|[path pr] atts IH]; intros used w l Hinv Hd Hf.
  - exists w, l. cbn. split; [easy | split; [easy | lia]].
  - cbn [allocs_distinct] in Hd. destruct Hd as [Hc Hd]. cbn [length] in Hf.
    destruct (check_register_mouse_inv used w l path pr fuel Hinv Hc
                ltac:(lia)) as (w1 & l1 & Hrun1 & Hinv1 & Hlen1).
    destruct (IH (p_calloc pr :: used) w1 l1 Hinv1 Hd ltac:(lia))
      as (w' & l' & Hrun & Hinv' & Hlen).
    exists w', l'. cbn [register_all]. rewrite Hrun1.
    split; [exact Hrun|]. split; [|cbn [length]; lia].
    eapply run_inv_mono; [|exact Hinv'].
    intros a Ha. cbn [List.map snd app].
    apply elem_of_app in Ha as [Ha|Ha].
    + apply elem_of_cons. right. apply elem_of_app. now left.
    + apply elem_of_cons in Ha as [->|Ha]; apply elem_of_cons;
        [now left | right; apply elem_of_app; now right].
Qed.

Lemma polled_total (reads : Z -> list (Z * input_event)) :
  (forall d, script_ends (reads d)) ->
  forall l : list view,
    exists outs, Forall2 (fun v o => polled reads v = Done o) l outs.
Proof.
  intros Hends. induction l as [|v l [outs IH]]; [exists []; constructor|].
  destruct (Hends (v_dev v)) as (pre & s & e & post & Hscript & Hpre & Hs).
  assert (exists o, polled reads v = Done o) as [o Ho].
  { unfold polled. rewrite Hscript, read_burst_prefix by easy.
    cbn [mbind result_bind bind].
    destruct (after_burst s _) as [st' log]. eauto. }
  exists (o :: outs). now constructor.
Qed.

Lemma polled_views_same (reads : Z -> list (Z * input_event))
    (l : list view) (outs : list (Z * view * list effect)) :
  Forall2 (fun v o => polled reads v = Done o) l outs ->
  addrs (List.map polled_view outs) = addrs l /\
  (forall v, v ∈ l ->
     exists v', v' ∈ List.map polled_view outs /\ v_dev v' = v_dev v) /\
  Forall (fun e => grab_neutral e = true)
         (concat (List.map polled_effects outs)).
Proof.
  induction 1 as [|v o l outs Ho _ (IHa & IHd & IHn)].
  - split; [reflexivity|]. split; [|constructor]. intros v Hv. inversion Hv.
  - destruct (polled_own_effects reads v o Ho) as [Hview Heff].
    cbn [List.map concat]. split; [|split].
    + unfold addrs in *. cbn [fmap list_fmap]. rewrite Hview at 1.
      cbn [v_addr with_state]. f_equal. exact IHa.
    + intros v0 Hv0. apply elem_of_cons in Hv0 as [->|Hv0].
      * exists (polled_view o). split; [apply elem_of_cons; now left|].
        now rewrite Hview.
      * destruct (IHd v0 Hv0) as (v' & Hv' & Hd). exists v'.
        split; [apply elem_of_cons; now right | exact Hd].
    + apply Forall_app. split; [|exact IHn].
      eapply Forall_impl; [exact Heff|]. intros [] He; try reflexivity;
        discriminate He.
Qed.

Lemma poll_mice_inv (reads : Z -> list (Z * input_event))
    (used : list Z) (w : World) (l : list view)
    (outs : list (Z * view * list effect)) (fuel : nat) :
  run_inv used w l ->
  Forall2 (fun v o => polled reads v = Done o) l outs ->
  (length l < fuel)%nat ->
  exists w1,
    poll_mice fuel reads w (mice w) = Done w1 /\
    run_inv used w1 (List.map polled_view outs).
Proof.
  intros (Hreg & Hdom & Hused & Hheld) Hout Hf.
  destruct (poll_mice_spec reads l outs w (mice w) fuel Hreg Hout Hf)
    as (w1 & Hrun & Hl1 & Hm1 & Htr1 & Hdom1 & _).
  destruct (polled_views_same reads l outs Hout) as (Ha & Hd & Hn).
  exists w1. split; [exact Hrun|]. split; [|split; [|split]].
  - unfold registry. now rewrite Hm1.
  - now rewrite Hdom1, Hdom, Ha.
  - intros a Hsome. apply Hused. apply elem_of_dom.
    rewrite <- Hdom1. now apply elem_of_dom.
  - intros d Hin. rewrite Htr1, held_app, held_from_neutral in Hin
      by exact Hn.
    destruct (Hheld d Hin) as (v & Hv & Hdv).
    destruct (Hd v Hv) as (v' & Hv' & Hdv'). exists v'.
    split; [exact Hv' | congruence].
Qed.

Lemma alive_addrs (l : list view) :
  NoDup (addrs l) ->
  list_to_set (addrs l) ∖ list_to_set (addrs (List.filter dead_view l))
  = (list_to_set (addrs (List.filter alive_view l)) : gset Z).
Proof.
  intros Hnd. apply set_eq. intros x.
  rewrite elem_of_difference, !elem_of_list_to_set.
  unfold addrs. rewrite !list_elem_of_fmap. split.
  - intros [(v & -> & Hv) Hnot]. exists v. split; [reflexivity|].
    apply list_elem_of_In, List.filter_In. split; [now apply list_elem_of_In|].
    unfold alive_view. destruct (dead (v_state v)) eqn:Hd; [|reflexivity].
    exfalso. apply Hnot. exists v. split; [reflexivity|].
    apply list_elem_of_In, List.filter_In. split; [now apply list_elem_of_In|].
    exact Hd.
  - intros (v & -> & Hv).
    apply list_elem_of_In, List.filter_In in Hv as [Hv Halive].
    apply list_elem_of_In in Hv.
    split; [now exists v|]. intros (v' & Heq & Hv').
    apply list_elem_of_In, List.filter_In in Hv' as [Hv' Hdead].
    apply list_elem_of_In in Hv'.
    assert (v = v') as <-.
    { clear -Hnd Hv Hv' Heq. induction l as [|x l IH]; [inversion Hv|].
      cbn [addrs fmap list_fmap] in Hnd. apply NoDup_cons in Hnd as [Hx Hnd].
      apply elem_of_cons in Hv as [->|Hv], Hv' as [->|Hv']; try easy.
      - exfalso. apply Hx. rewrite Heq. apply list_elem_of_fmap. now exists v'.
      - exfalso. apply Hx. rewrite <- Heq. apply list_elem_of_fmap.
        now exists v.
      - now apply IH. }
    unfold alive_view, dead_view in *. now rewrite Hdead in Halive.
Qed.

Lemma sweep_inv (used : list Z) (w : World) (l : list view) (fuel : nat) :
  run_inv used w l -> (length l < fuel)%nat ->
  exists w',
    unregister_dead_mice fuel w = Done w' /\
    run_inv used w' (List.filter alive_view l).
Proof.
  intros (Hreg & Hdom & Hused & Hheld) Hf.
  destruct (unregister_dead_mice_spec w l fuel Hreg Hf)
    as (w' & Hrun & Hreg' & Htr & Hdom').
  exists w'. split; [exact Hrun|]. split; [exact Hreg'|]. split; [|split].
  - rewrite Hdom', Hdom. apply alive_addrs. exact (is_list_nodup _ _ _ Hreg).
  - intros a Hsome. apply Hused. apply elem_of_dom.
    apply elem_of_dom in Hsome. rewrite Hdom' in Hsome.
    now apply elem_of_difference in Hsome as [Hsome _].
  - intros d Hin. rewrite Htr, held_app in Hin.
    apply held_from_released in Hin as [Hin Hnot].
    destruct (Hheld d Hin) as (v & Hv & Hdv). exists v.
    split; [|exact Hdv].
    apply list_elem_of_In, List.filter_In. split; [now apply list_elem_of_In|].
    unfold alive_view. destruct (dead (v_state v)) eqn:Hd; [|reflexivity].
    exfalso. now apply (Hnot v Hv Hd).
Qed.

Lemma loop_iteration_inv (fuel : nat) (r : round) (used : list Z)
    (w : World) (l : list view) :
  run_inv used w l ->
  allocs_distinct used (hotplug_attempts (r_devs r)) ->
  (forall d, script_ends (r_reads r d)) ->
  (length l + length (hotplug_attempts (r_devs r)) < fuel)%nat ->
  exists w' l',
    loop_iteration fuel (r_devs r) (r_reads r) w = Done w' /\
    run_inv (List.map (fun x => p_calloc (snd x))
               (hotplug_attempts (r_devs r)) ++ used) w' l' /\
    (length l' <= length l + length (hotplug_attempts (r_devs r)))%nat.
Proof.
  intros Hinv Hd Hends Hf. unfold loop_iteration, poll_and_sweep.
  rewrite drain_hotplug_register_all.
  destruct (register_all_inv fuel _ used w l Hinv Hd Hf)
    as (w1 & l1 & Hrun1 & Hinv1 & Hlen1).
  rewrite Hrun1. cbn [mbind result_bind bind].
  destruct (polled_total (r_reads r) Hends l1) as [outs Hout].
  destruct (poll_mice_inv (r_reads r) _ w1 l1 outs fuel Hinv1 Hout
              ltac:(lia)) as (w2 & Hrun2 & Hinv2).
  rewrite Hrun2. cbn [mbind result_bind bind].
  pose proof (Forall2_length _ _ _ Hout) as Hlen.
  destruct (sweep_inv _ w2 _ fuel Hinv2) as (w' & Hrun & Hinv');
    [rewrite length_map; lia|].
  eexists. eexists. split; [exact Hrun|]. split; [exact Hinv'|].
  pose proof (filter_length_le alive_view (List.map polled_view outs)) as H.
  rewrite length_map in H. lia.
Qed.

Lemma run_rounds_inv (fuel : nat) (rounds : list round) :
  forall (used : list Z) (w : World) (l : list view),
    run_inv used w l ->
    allocs_distinct used
      (concat (List.map (fun r => hotplug_attempts (r_devs r)) rounds)) ->
    Forall (fun r => forall d, script_ends (r_reads r d)) rounds ->
    (length l
     + length (concat (List.map (fun r => hotplug_attempts (r_devs r))
                         rounds)) < fuel)%nat ->
    exists w' l' used',
      run_rounds fuel rounds w = Done w' /\
      run_inv used' w' l' /\ (length l' < fuel)%nat.
Proof.
  induction rounds as [|r rounds IH]; intros used w l Hinv Hd Hends Hf.
  - exists w, l, used. cbn in *. split; [easy | split; [easy | lia]].
  - cbn [List.map concat] in Hd, Hf. rewrite length_app in Hf.
    apply allocs_distinct_app in Hd as [Hd1 Hd2].
    apply Forall_cons in Hends as [Hends1 Hends].
    destruct (loop_iteration_inv fuel r used w l Hinv Hd1 Hends1 ltac:(lia))
      as (w1 & l1 & Hrun1 & Hinv1 & Hlen1).
    destruct (IH _ w1 l1 Hinv1 Hd2 Hends ltac:(lia))
      as (w' & l' & used' & Hrun & Hinv' & Hlen').
    exists w', l', used'. cbn [run_rounds]. rewrite Hrun1.
    split; [exact Hrun | split; [exact Hinv' | exact Hlen']].
Qed.

Lemma shutdown_inv (used : list Z) (w : World) (l : list view)
    (fuel : nat) :
  run_inv used w l -> (length l < fuel)%nat ->
  exists w',
    shutdown fuel w = Done w' /\
    mice w' = 0 /\ heap w' = ∅ /\ held (trace w') = [].
Proof.
  intros (Hreg & Hdom & Hused & Hheld) Hf.
  destruct (mark_all_dead_spec l (heap w) (mice w) fuel Hreg Hf)
    as (h1 & Hrun1 & Hl1 & Hdom1 & _).
  assert (run_inv used (MkWorld h1 (mice w) (trace w))
                  (List.map mark_dead l)) as Hinv1.
  { split; [exact Hl1|]. cbn [heap trace]. split; [|split].
    - now rewrite Hdom1, Hdom, addrs_marked.
    - intros a Hsome. apply Hused. apply elem_of_dom. rewrite <- Hdom1.
      now apply elem_of_dom.
    - intros d Hd. destruct (Hheld d Hd) as (v & Hv & Hdv).
      exists (mark_dead v). split; [|exact Hdv].
      apply list_elem_of_In, List.in_map. now apply list_elem_of_In. }
  destruct (sweep_inv used _ _ fuel Hinv1) as (w' & Hrun & Hinv');
    [rewrite length_map; lia|].
  rewrite filter_alive_marked in Hinv'.
  destruct Hinv' as (Hreg' & Hdom' & _ & Hheld').
  exists w'. split; [unfold shutdown; rewrite Hrun1; exact Hrun|].
  split; [exact Hreg'|]. split.
  - apply dom_empty_iff_L. exact Hdom'.
  - destruct (held (trace w')) as [|d t]; [reflexivity|]. exfalso.
    destruct (Hheld' d) as (v & Hv & _); [apply elem_of_cons; now left|].
    inversion Hv.
Qed.

(** ** The whole run *)

Lemma run_inv_initial : run_inv [] (MkWorld ∅ 0 []) [].
Proof.
  split; [reflexivity|]. cbn [heap trace]. split; [|split].
  - now rewrite dom_empty_L.
  - intros a [x Hx]. now rewrite lookup_empty in Hx.
  - intros d Hd. inversion Hd.
Qed.

(** X25. A run that starts as root on a readable /dev/input with udev
    available, whose devices each stop answering after finitely many
    events, and whose allocator never returns an address twice, ends with
    exit status 0 however many rounds pass before the stop flag is seen
    and whatever is plugged in meanwhile; at exit the registry is empty,
    no node is left in the heap, and no descriptor is still grabbed. *)
Theorem clean_exit_leaves_nothing
    (fuel : nat) (s : startup) (entries : list (string * probe))
    (rounds : list round) :
  s_uid s = 0 ->
  s_input_dir s = Some entries ->
  s_udev s = true -> s_monitor s = true -> 0 <= s_enable s ->
  allocs_distinct [] (all_attempts entries rounds) ->
  Forall (fun r => forall d, script_ends (r_reads r d)) rounds ->
  (length (all_attempts entries rounds) < fuel)%nat ->
  exists w',
    main fuel s rounds = Done (0, None, w') /\
    mice w' = 0 /\ heap w' = ∅ /\ held (trace w') = [].
Proof.
  intros Huid Hdir Hudev Hmon Hen Hd Hends Hf.
  unfold all_attempts in Hd, Hf. rewrite length_app in Hf.
  apply allocs_distinct_app in Hd as [Hd1 Hd2].
  apply Z.ltb_ge in Hen.
  unfold main. rewrite Huid, Hdir, Hudev, Hmon, Hen. cbn [Z.eqb negb].
  rewrite scan_directory_register_all.
  destruct (register_all_inv fuel (scan_attempts entries) [] _ []
              run_inv_initial Hd1 ltac:(cbn [length]; lia))
    as (w1 & l1 & Hrun1 & Hinv1 & Hlen1).
  rewrite Hrun1. cbn [mbind result_bind bind].
  destruct (run_rounds_inv fuel rounds _ w1 l1 Hinv1 Hd2 Hends
              ltac:(cbn [length] in Hlen1; lia))
    as (w2 & l2 & used2 & Hrun2 & Hinv2 & Hlen2).
  rewrite Hrun2. cbn [mbind result_bind bind].
  destruct (shutdown_inv used2 w2 l2 fuel Hinv2 Hlen2)
    as (w' & Hrun & Hm & Hh & Hheld).
  rewrite Hrun. cbn [mbind result_bind bind].
  exists w'. easy.
Qed.

Lemma reads_gone_ends (d : Z) : script_ends (reads_gone d).
Proof.
  unfold reads_gone. destruct (d =? 100).
  - exists [(0, ev_press)], (-19), (InputEvent 0 0 0), [].
    split; [reflexivity|]. split; [repeat constructor; simpl; lia | lia].
  - exists [], (- EAGAIN), (InputEvent 0 0 0), [].
    split; [reflexivity|]. split; [constructor | reflexivity].
Qed.

Lemma clean_exit_leaves_nothing_witness :
  exists w',
    main 4 s_sample rounds_sample = Done (0, None, w') /\
    mice w' = 0 /\ heap w' = ∅ /\ held (trace w') = [].
Proof.
  apply (clean_exit_leaves_nothing 4 s_sample
           [("event3", MkProbe 16 3 0 100 true true 0 200 0 "a");
            ("mice", MkProbe 0 0 0 0 false false 0 0 0 "")]
           rounds_sample).
  - reflexivity.
  - reflexivity.
  - reflexivity.
  - reflexivity.
  - simpl. lia.
  - cbn. split; [right; apply not_elem_of_nil|].
    split; [now left|]. split; [|exact I].
    right. apply (bool_decide_unpack _). vm_compute. exact I.
  - repeat constructor. apply reads_gone_ends.
  - simpl. lia.
Defined.

(** X26. When udev cannot be set up, [main] returns EXIT_FAILURE straight
    after the scan: no round is run and the shutdown sweep is skipped, so
    the world at exit is the one the scan left, with every mouse it
    registered still in the registry. *)
Theorem udev_failure_skips_shutdown
    (fuel : nat) (s : startup) (entries : list (string * probe))
    (rounds : list round) :
  s_uid s = 0 ->
  s_input_dir s = Some entries ->
  s_udev s = false \/ s_monitor s = false \/ s_enable s < 0 ->
  allocs_fresh ∅ (scan_attempts entries) ->
  (length entries < fuel)%nat ->
  exists err w',
    main fuel s rounds = Done (EXIT_FAILURE, Some err, w') /\
    scan_directory fuel entries (MkWorld ∅ 0 []) = Done w' /\
    registry w' (registered (scan_attempts entries)).
Proof.
  intros Huid Hdir Hfail Hfresh Hf.
  destruct (register_all_spec fuel (scan_attempts entries)
              (MkWorld ∅ 0 []) []) as (w1 & added & Hrun1 & Hreg1 & _).
  - reflexivity.
  - cbn [heap]. now rewrite dom_empty_L.
  - unfold scan_attempts. rewrite length_map. cbn [length]. lia.
  - rewrite app_nil_r in Hreg1.
    rewrite <- scan_directory_register_all in Hrun1.
    unfold main. rewrite Huid, Hdir, Hrun1. cbn [Z.eqb negb].
    cbn [mbind result_bind bind].
    destruct (s_udev s); cbn [negb]; [|eauto].
    destruct (s_monitor s); cbn [negb]; [|eauto].
    destruct Hfail as [Hu|[Hm|He]]; try discriminate.
    apply Z.ltb_lt in He. rewrite He. eauto.
Qed.

Lemma udev_failure_skips_shutdown_witness :
  exists err w',
    main 4 (MkStartup 0
              (Some [("event3", MkProbe 16 3 0 100 true true 0 200 0 "a")])
              true false 0) rounds_sample
    = Done (EXIT_FAILURE, Some err, w') /\
    scan_directory 4 [("event3", MkProbe 16 3 0 100 true true 0 200 0 "a")]
      (MkWorld ∅ 0 []) = Done w' /\
    registry w' [MkView 16 3 100 200 0].
Proof.
  apply (udev_failure_skips_shutdown 4
           (MkStartup 0
              (Some [("event3", MkProbe 16 3 0 100 true true 0 200 0 "a")])
              true false 0)
           [("event3", MkProbe 16 3 0 100 true true 0 200 0 "a")]
           rounds_sample).
  - reflexivity.
  - reflexivity.
  - right. left. reflexivity.
  - cbn. split; [|exact I]. right. apply not_elem_of_empty.
  - simpl. lia.
Defined.
